(** * SchedTalks: schedule export to Markdown

    A shallow embedding of [sched_talks.py].  The script fetches a schedule
    from sched.com, downloads the files attached to each talk and renders a
    Markdown document.  Python dictionaries with a fixed set of keys become
    records whose fields are options ([None] is an absent key), the
    [settings] dictionary and [os.environ] are finite maps, [str] is
    [string], [bytes] is [list byte], and the effects (HTTP, file system,
    clock) are threaded through a state-and-exception monad over the
    history of effects the process has performed. *)

From Stdlib Require Import ZArith Lia.
From Stdlib.Strings Require Import Byte Ascii String.
From stdpp Require Import base option list strings gmap pretty.

Local Open Scope string_scope.
Local Open Scope list_scope.
Local Open Scope Z_scope.

(** ** Strings *)

Module Str.

Fixpoint startswith (pre s : string) : bool :=
  match pre, s with
  | EmptyString, _ => true
  | String a pre', String b s' => if Ascii.eqb a b then startswith pre' s' else false
  | String _ _, EmptyString => false
  end.

(** [s.endswith(c)] for a one-character [c]. *)
Fixpoint endswith_char (c : ascii) (s : string) : bool :=
  match s with
  | EmptyString => false
  | String a EmptyString => Ascii.eqb a c
  | String _ s' => endswith_char c s'
  end.

(** [c in s] for a one-character [c]. *)
Fixpoint mem (c : ascii) (s : string) : bool :=
  match s with
  | EmptyString => false
  | String a s' => if Ascii.eqb a c then true else mem c s'
  end.

(** [sub in s]. *)
Fixpoint contains (sub s : string) : bool :=
  if startswith sub s then true
  else match s with
       | EmptyString => false
       | String _ s' => contains sub s'
       end.

(** [s.rfind(c)] for a one-character [c]: the highest index, or [-1]. *)
Fixpoint rfind (c : ascii) (s : string) : Z :=
  match s with
  | EmptyString => -1
  | String a s' =>
      let r := rfind c s' in
      if 0 <=? r then 1 + r
      else if Ascii.eqb a c then 0 else -1
  end.

(** [s[:n]] and [s[n:]] for [0 <= n]. *)
Fixpoint take (n : nat) (s : string) : string :=
  match n, s with
  | O, _ => EmptyString
  | S _, EmptyString => EmptyString
  | S n', String a s' => String a (take n' s')
  end.

Fixpoint drop (n : nat) (s : string) : string :=
  match n, s with
  | O, _ => s
  | S _, EmptyString => EmptyString
  | S n', String _ s' => drop n' s'
  end.

(** [s.replace(c, new)] for a one-character [c]. *)
Fixpoint replace (c : ascii) (new s : string) : string :=
  match s with
  | EmptyString => EmptyString
  | String a s' =>
      if Ascii.eqb a c then new +:+ replace c new s'
      else String a (replace c new s')
  end.

(** [sep.join(l)]. *)
Fixpoint join (sep : string) (l : list string) : string :=
  match l with
  | [] => EmptyString
  | [x] => x
  | x :: l' => x +:+ sep +:+ join sep l'
  end.

(** [''.join(l)]. *)
Fixpoint concat (l : list string) : string :=
  match l with
  | [] => EmptyString
  | x :: l' => x +:+ concat l'
  end.

(** The characters of [s] that satisfy [p], in order. *)
Fixpoint filter (p : ascii → bool) (s : string) : string :=
  match s with
  | EmptyString => EmptyString
  | String a s' => if p a then String a (filter p s') else filter p s'
  end.

(** Every character of [s] satisfies [p]. *)
Fixpoint forallb (p : ascii → bool) (s : string) : bool :=
  match s with
  | EmptyString => true
  | String a s' => p a && forallb p s'
  end.

End Str.

Definition LF : ascii := Ascii.ascii_of_nat 10.
Definition CR : ascii := Ascii.ascii_of_nat 13.
Definition nl : string := String LF EmptyString.

(** ** [os.path] (the POSIX flavour) *)

(** [os.path.join(a, b)] *)
Definition os_path_join (a b : string) : string :=
  if Str.startswith "/" b then b
  else if String.eqb a "" || Str.endswith_char "/" a then a +:+ b
  else a +:+ "/" +:+ b.

(** The [while] loop of [genericpath._splitext]: looks for a character other
    than the dot among the [n] characters from index [i] on. *)
Fixpoint splitext_scan (p : string) (i : nat) (n : nat) : bool :=
  match n with
  | O => false
  | S n' =>
      match String.get i p with
      | Some c => if Ascii.eqb c "." then splitext_scan p (S i) n' else true
      | None => true
      end
  end.

(** [os.path.splitext(p)] *)
Definition os_path_splitext (p : string) : string * string :=
  let sepIndex := Str.rfind "/" p in
  let dotIndex := Str.rfind "." p in
  if (sepIndex <? dotIndex)
     && splitext_scan p (Z.to_nat (sepIndex + 1)) (Z.to_nat (dotIndex - (sepIndex + 1)))
  then (Str.take (Z.to_nat dotIndex) p, Str.drop (Z.to_nat dotIndex) p)
  else (p, "").

(** [os.path.basename(p)] *)
Definition os_path_basename (p : string) : string :=
  Str.drop (Z.to_nat (Str.rfind "/" p + 1)) p.

(** ** [bytes] and their [repr] *)

Definition SQUOTE : ascii := "'"%char.
Definition DQUOTE : ascii := Ascii.ascii_of_nat 34.
Definition BACKSLASH : ascii := "\"%char.

Definition hex_digit (n : N) : ascii :=
  match n with
  | 0 => "0" | 1 => "1" | 2 => "2" | 3 => "3" | 4 => "4" | 5 => "5"
  | 6 => "6" | 7 => "7" | 8 => "8" | 9 => "9" | 10 => "a" | 11 => "b"
  | 12 => "c" | 13 => "d" | 14 => "e" | _ => "f"
  end%N%char.

(** One byte inside a bytes literal delimited by [quote]. *)
Definition byte_escape (quote : ascii) (b : byte) : string :=
  let c := ascii_of_byte b in
  let n := Byte.to_N b in
  if Ascii.eqb c quote || Ascii.eqb c BACKSLASH then String BACKSLASH (String c "")
  else if (n =? 9)%N then String BACKSLASH "t"
  else if (n =? 10)%N then String BACKSLASH "n"
  else if (n =? 13)%N then String BACKSLASH "r"
  else if (n <? 32)%N || (127 <=? n)%N
       then String BACKSLASH (String "x" (String (hex_digit (n / 16)) (String (hex_digit (n mod 16)) "")))
  else String c "".

(** [repr(bs)], which is also what an f-string prints for a [bytes] value:
    the literal is delimited by single quotes unless the bytes hold a single
    quote and no double quote. *)
Definition bytes_repr (bs : list byte) : string :=
  let squotes := existsb (λ b, Ascii.eqb (ascii_of_byte b) SQUOTE) bs in
  let dquotes := existsb (λ b, Ascii.eqb (ascii_of_byte b) DQUOTE) bs in
  let quote := if squotes && negb dquotes then DQUOTE else SQUOTE in
  String "b" (String quote (Str.concat (map (byte_escape quote) bs) +:+ String quote "")).

(** The text a [bytes] value holds when every byte is taken as one character. *)
Definition bytes_text (bs : list byte) : string :=
  string_of_list_ascii (map ascii_of_byte bs).

Definition bytes_of (s : string) : list byte :=
  map byte_of_ascii (list_ascii_of_string s).

(** ** Data model *)

(** A value that is a string or an integer (the [id] of a talk). *)
Inductive scalar :=
| SStr (s : string)
| SInt (n : Z).

(** [str(v)] *)
Definition py_str (v : scalar) : string :=
  match v with
  | SStr s => s
  | SInt n => pretty n
  end.

(** What an f-string prints for the result of [d.get(key)]. *)
Definition fmt_str (o : option string) : string := default "None" o.
Definition fmt_scalar (o : option scalar) : string := default "None" (py_str <$> o).

(** Truth value of an optional string: [None] and [''] are falsy. *)
Definition truthy (o : option string) : bool :=
  match o with
  | Some (String _ _) => true
  | _ => false
  end.

Module Speaker.
Record t := mk { name : option string }.
End Speaker.

(** A raw attachment descriptor of the API. *)
Module FileDesc.
Record t := mk { path : option string; name : option string }.
End FileDesc.

(** A resolved attachment, as built by [_download_attachments]: the three
    keys are always there, [file_url] and [file_name] hold whatever
    [attachment.get] returned. *)
Module Attachment.
Record t := mk { file_url : option string; file_path : string; file_name : option string }.
End Attachment.

Module Talk.
Record t := mk {
  id : option scalar;
  name : option string;
  speakers : option (list Speaker.t);
  event_start : option string;
  description : option string;
  files : option (list FileDesc.t);
  attachments : option (list Attachment.t);
}.

(** [talk['attachments'] = a] *)
Definition set_attachments (a : list Attachment.t) (talk : t) : t :=
  mk (id talk) (name talk) (speakers talk) (event_start talk)
     (description talk) (files talk) (Some a).
End Talk.

(** ** Exceptions, effects and the environment *)

Inductive exn :=
| FileExistsError
| AttributeError (attr : string)
| TypeError
| Exception (msg : string)
| OtherError (what : string).

Inductive outcome (A : Type) :=
| Ok (a : A)
| Raise (e : exn).
Arguments Ok {A} a.
Arguments Raise {A} e.

(** The effects the script performs, in the order it performs them. *)
Inductive event :=
| EvMkdir (dir : string)
| EvGet (url : string)
| EvOpen (path mode : string)
| EvWrite (path : string) (data : list byte)
| EvWriteText (path : string) (data : string)
| EvRead (path : string)
| EvNow.

(** The history of a run, most recent effect first. *)
Definition history := list event.

(** An HTTP response of [requests]. *)
Record Response := mkResponse { status_code : Z; content : list byte }.

(** [bool(response)] is [response.ok]: the status is no client or server error. *)
Definition Response_bool (r : Response) : bool :=
  negb ((400 <=? status_code r) && (status_code r <? 600)).

(** The world outside the process.  Each answer may depend on everything
    the process has done so far. *)
Record Env := mkEnv {
  environ : gmap string string;
  requests_get : history → string → outcome Response;
  os_mkdir : history → string → option exn;
  open_file : history → string → string → option exn;
  file_write : history → string → list byte → option exn;
  file_write_text : history → string → string → option exn;
  file_read : history → string → outcome string;
  datetime_now : history → string;
}.

(** Computations: read and extend the history, return or raise. *)
Definition M (A : Type) : Type := history → outcome A * history.

Definition ret {A} (a : A) : M A := λ h, (Ok a, h).
Definition raise {A} (e : exn) : M A := λ h, (Raise e, h).
Definition bind {A B} (m : M A) (k : A → M B) : M B :=
  λ h, match m h with
       | (Ok a, h') => k a h'
       | (Raise e, h') => (Raise e, h')
       end.
(** [try: m except: handler] *)
Definition try_except {A} (m : M A) (handler : exn → M A) : M A :=
  λ h, match m h with
       | (Ok a, h') => (Ok a, h')
       | (Raise e, h') => handler e h'
       end.

Notation "'do' x <- m ; k" := (bind m (λ x, k))
  (at level 10, x name, m at level 100, k at level 200).
Notation "'do_' m ; k" := (bind m (λ _, k))
  (at level 10, m at level 100, k at level 200).

(** [for x in l: acc = body acc x] *)
Fixpoint for_each {A B} (body : B → A → M B) (l : list A) (acc : B) : M B :=
  match l with
  | [] => ret acc
  | x :: l' => do acc' <- body acc x; for_each body l' acc'
  end.

(** An effect whose answer is a value or an exception. *)
Definition perform {A} (ev : event) (answer : history → outcome A) : M A :=
  λ h, (answer h, ev :: h).

(** An effect that returns nothing or raises. *)
Definition perform_unit (ev : event) (answer : history → option exn) : M unit :=
  λ h, (match answer h with None => Ok tt | Some e => Raise e end, ev :: h).

(** [response.iter_content(chunk_size=n)]: the body in pieces of [n] bytes;
    [k] counts the room left in the piece [cur] being filled (reversed). *)
Fixpoint iter_content_go (n k : nat) (cur : list byte) (l : list byte) : list (list byte) :=
  match l with
  | [] => match cur with [] => [] | _ => [rev cur] end
  | b :: l' =>
      match k with
      | O => rev cur :: iter_content_go n (Nat.pred n) [b] l'
      | S k' => iter_content_go n k' (b :: cur) l'
      end
  end.

Definition iter_content (r : Response) (chunk_size : nat) : list (list byte) :=
  iter_content_go chunk_size chunk_size [] (content r).

(** ** The program *)

Definition HEADER : string :=
  "# PyConES 2019 Conferences and their related stuff" +:+ nl +:+
  "It contains all available talks, their attachments and other interesting information." +:+ nl +:+
  "## Talks" +:+ nl.

(** The URL of [_get_talks]. *)
Definition schedule_url (api_key : option string) : string :=
  "https://pycones19.sched.com/api/session/export?api_key=" +:+ fmt_str api_key +:+
  "&format=json&strip_html=Y&fields=id,files,name,speakers,event_start,description".

(** The object: [__slots__ = ['json', 'talks', 'settings']].  [settings] and
    [talks] are assigned first thing in [__init__]; the [json] slot stays
    unset ([None] here) until [_get_talks] assigns it, and reading an unset
    slot raises [AttributeError]. *)
Record SchedTalks := mkSchedTalks {
  json : option (list Talk.t);
  talks : list Talk.t;
  settings : gmap string (option string);
}.

(** [self.settings.get(key)] *)
Definition settings_get (self : SchedTalks) (key : string) : option string :=
  mjoin (settings self !! key).

Definition output_dir (self : SchedTalks) : option string := settings_get self "output_dir".
Definition api_key (self : SchedTalks) : option string := settings_get self "api_key".

(** [speaker.get('name', 'Unknown')] *)
Definition speaker_name (speaker : Speaker.t) : string :=
  default "Unknown" (Speaker.name speaker).

(** [talk.get('speakers', [])] with each speaker's name. *)
Definition speaker_names (talk : Talk.t) : list string :=
  map speaker_name (default [] (Talk.speakers talk)).

(** The description line of [as_md], if any. *)
Definition clean_description (description : string) : string :=
  Str.replace CR "" (Str.replace LF "" description).

Definition description_md (talk : Talk.t) : string :=
  let description := Talk.description talk in
  if truthy description
  then "  - :clipboard:  " +:+ clean_description (default "" description) +:+ nl
  else "".

(** One entry of the attachment list of [as_md], and the list itself. *)
Definition attachment_md (attachment : Attachment.t) : string :=
  "    - :paperclip: [" +:+ fmt_str (Attachment.file_name attachment) +:+ "](" +:+
  Attachment.file_path attachment +:+ ")" +:+ nl.

Definition attachment_entries (talk : Talk.t) : list string :=
  map attachment_md (default [] (Talk.attachments talk)).

Definition attachments_md (talk : Talk.t) : string :=
  match Talk.attachments talk with
  | Some (_ :: _) =>
      "  - :open_file_folder: Attachments" +:+ nl +:+ Str.concat (attachment_entries talk)
  | _ => ""
  end.

(** [talk_md] at the end of the loop body of [as_md]. *)
Definition talk_md (talk : Talk.t) (speakers : list string) : string :=
  let speakers_formated := Str.join ", " speakers in
  "### " +:+ fmt_str (Talk.name talk) +:+ nl +:+
  "  - :snake: _" +:+ speakers_formated +:+ "_" +:+ nl +:+
  "  - :alarm_clock:  " +:+ fmt_str (Talk.event_start talk) +:+ nl +:+
  description_md talk +:+
  attachments_md talk +:+
  "  - :link: [More info](https://pycones19.sched.com/event/" +:+ fmt_scalar (Talk.id talk) +:+ ")".

(** The body of the [for] loop of [as_md]; [continue] leaves the document
    as it is. *)
Definition as_md_step (talks_content : string) (talk : Talk.t) : string :=
  let speakers := speaker_names talk in
  match speakers with
  | [] => talks_content
  | _ :: _ => talks_content +:+ talk_md talk speakers +:+ nl
  end.

(** The part of [as_md] before the lightning talks. *)
Definition talks_section (talks : list Talk.t) : string :=
  fold_left as_md_step talks HEADER.

(** The end of [as_md]: the lightning talks, if any, and the time stamp. *)
Definition finish_md (talks_content lt_content now : string) : string :=
  let talks_content :=
    if truthy (Some lt_content) then talks_content +:+ nl +:+ lt_content
    else talks_content in
  talks_content +:+ nl +:+ "_Automatically created with :hearts: at " +:+ now +:+ "_".

(** The settings of [__init__] for the keyword arguments [kwargs]. *)
Definition init_settings (environ : gmap string string) (kwargs : gmap string (option string))
    : gmap string (option string) :=
  kwargs ∪
  {[ "output_dir" := Some "files";
     "api_key" := match environ !! "SCHED_API_KEY" with
                  | Some v => Some v
                  | None => environ !! "SCHED_KEY"
                  end ]}.

(** The options [optparse] yields for the flags [-o] and [-t] as given on the
    command line ([None]: flag not given). *)
Definition parse_args (flag_o flag_t : option string) : gmap string (option string) :=
  {[ "output_dir" := Some (default "files" flag_o); "api_key" := flag_t ]}.

(** The main block, up to [vars(options)]. *)
Definition main_options (flag_o flag_t : option string) : gmap string (option string) :=
  let options := parse_args flag_o flag_t in
  if negb (truthy (mjoin (options !! "api_key"))) then delete "api_key" options
  else options.

Section Program.

(** [slugify] of python-slugify and [json.loads], which yields the talk
    records of the response or raises ([None]). *)
Variable slugify : string → string.
Variable json_loads : list byte → option (list Talk.t).
Variable E : Env.

(** [os.mkdir(dir)]; a [dir] that is no string is a [TypeError]. *)
Definition mkdir (dir : option string) : M unit :=
  match dir with
  | None => raise TypeError
  | Some d => perform_unit (EvMkdir d) (λ h, os_mkdir E h d)
  end.

Definition _mkdir (dir : option string) : M unit :=
  try_except (mkdir dir)
    (λ e, match e with FileExistsError => ret tt | _ => raise e end).

(** [requests.get(url)]; no URL at all is refused by [requests]. *)
Definition get (url : option string) : M Response :=
  match url with
  | None => raise (OtherError "MissingSchema")
  | Some u => perform (EvGet u) (λ h, requests_get E h u)
  end.

(** [slugify(text)], which takes strings only. *)
Definition slugify_py (text : option string) : M string :=
  match text with
  | None => raise TypeError
  | Some s => ret (slugify s)
  end.

(** [os.path.join(a, b)] and [os.path.splitext(p)] on values that may be
    [None]. *)
Definition join_py (a : option string) (b : string) : M string :=
  match a with
  | None => raise TypeError
  | Some a => ret (os_path_join a b)
  end.

Definition splitext_py (p : option string) : M (string * string) :=
  match p with
  | None => raise TypeError
  | Some p => ret (os_path_splitext p)
  end.

(** The body of the loop of [_download_attachments]. *)
Definition download_step (self : SchedTalks) (destination_path : option string)
    (result : list Attachment.t) (attachment : FileDesc.t) : M (list Attachment.t) :=
  let file_url := FileDesc.path attachment in
  let file_name := FileDesc.name attachment in
  do split <- splitext_py file_name;
  let '(cleaned_file_name, file_extension) := split in
  do file_path_local <-
    join_py (if truthy destination_path then destination_path else output_dir self)
            (slugify cleaned_file_name +:+ file_extension);
  do get_response <- get file_url;
  do_ perform_unit (EvOpen file_path_local "wb") (λ h, open_file E h file_path_local "wb");
  do_ for_each (λ (_ : unit) chunk,
        match chunk with
        | [] => ret tt
        | _ :: _ => perform_unit (EvWrite file_path_local chunk)
                      (λ h, file_write E h file_path_local chunk)
        end) (iter_content get_response 1024) tt;
  ret (result ++ [Attachment.mk file_url file_path_local file_name])%list.

Definition _download_attachments (self : SchedTalks) (attachments : list FileDesc.t)
    (destination_path : option string) : M (list Attachment.t) :=
  for_each (download_step self destination_path) attachments [].

(** The body of the loop of [_get_talks]. *)
Definition get_talks_step (self : SchedTalks) (talks : list Talk.t) (talk : Talk.t)
    : M (list Talk.t) :=
  let attachments := default [] (Talk.files talk) in
  do talk <-
    match attachments with
    | [] => ret talk
    | _ :: _ =>
        do slug <- slugify_py (Talk.name talk);
        do talk_path <- join_py (output_dir self) slug;
        do_ _mkdir (Some talk_path);
        do attachments_resolved <- _download_attachments self attachments (Some talk_path);
        ret (Talk.set_attachments attachments_resolved talk)
    end;
  ret (talks ++ [talk])%list.

Definition _get_talks (self : SchedTalks) : M SchedTalks :=
  do talks_response <- get (Some (schedule_url (api_key self)));
  do self <-
    (if Response_bool talks_response then
       match json_loads (content talks_response) with
       | Some j => ret (mkSchedTalks (Some j) (talks self) (settings self))
       | None =>
           raise (Exception ("Sched Talks can't be correctly retrieved: '"
                             +:+ bytes_repr (content talks_response)))
       end
     else ret self);
  do self_json <-
    match json self with
    | Some j => ret j
    | None => raise (AttributeError "json")
    end;
  do talks <- for_each (get_talks_step self) self_json (talks self);
  ret (mkSchedTalks (json self) talks (settings self)).

(** The constructor, called with keyword arguments [kwargs]. *)
Definition __init__ (kwargs : gmap string (option string)) : M SchedTalks :=
  let self := mkSchedTalks None [] (init_settings (environ E) kwargs) in
  do_ _mkdir (output_dir self);
  _get_talks self.

Definition _get_lighting_talks_content : M string :=
  try_except
    (do_ perform_unit (EvOpen "lightning_talks.md" "r")
           (λ h, open_file E h "lightning_talks.md" "r");
     perform (EvRead "lightning_talks.md") (λ h, file_read E h "lightning_talks.md"))
    (λ _, ret "").

Definition now_strftime : M string :=
  λ h, (Ok (datetime_now E h), EvNow :: h).

Definition as_md (self : SchedTalks) : M string :=
  let talks_content := talks_section (talks self) in
  do lt_content <- _get_lighting_talks_content;
  do now <- now_strftime;
  ret (finish_md talks_content lt_content now).

Definition export_md (self : SchedTalks) (file_name : string) : M unit :=
  do_ perform_unit (EvOpen file_name "w") (λ h, open_file E h file_name "w");
  do md <- as_md self;
  perform_unit (EvWriteText file_name md) (λ h, file_write_text E h file_name md).

Definition main (flag_o flag_t : option string) : M unit :=
  do talks <- __init__ (main_options flag_o flag_t);
  export_md talks "README.md".

End Program.


(** ** Notions used in the statements *)

(** The object [__init__] starts from when the script is run with the flags
    [flag_o] and [flag_t]. *)
Definition configured (environ : gmap string string) (flag_o flag_t : option string)
    : SchedTalks :=
  mkSchedTalks None [] (init_settings environ (main_options flag_o flag_t)).


(** The talk has at least one speaker. *)
Definition has_speakers (talk : Talk.t) : bool :=
  match Talk.speakers talk with
  | Some (_ :: _) => true
  | _ => false
  end.




(** No field that [as_md] prints unchanged holds a line break. *)
Definition one_line (s : string) : Prop := Str.mem LF s = false.








Definition unlines (ls : list string) : string :=
  Str.concat (map (λ l, l +:+ nl) ls).

(** Neither a line feed nor a carriage return. *)
Definition no_break (c : ascii) : bool := negb (Ascii.eqb c LF) && negb (Ascii.eqb c CR).


(** The record [_download_attachments] builds for the descriptor
    [attachment] when the files go to the directory [dir]. *)
Definition resolved (slugify : string → string) (dir : string) (attachment : FileDesc.t)
    : Attachment.t :=
  let '(cleaned_file_name, file_extension) :=
    os_path_splitext (default "" (FileDesc.name attachment)) in
  Attachment.mk (FileDesc.path attachment)
    (os_path_join dir (slugify cleaned_file_name +:+ file_extension))
    (FileDesc.name attachment).

(** The last line of the document for the time stamp [now]. *)
Definition footer (now : string) : string :=
  "_Automatically created with :hearts: at " +:+ now +:+ "_".

(** The file of the lightning talks is there, readable, and its text is [c]. *)
Definition fragment_is (E : Env) (h : history) (c : string) : Prop :=
  open_file E h "lightning_talks.md" "r" = None
  ∧ file_read E (EvOpen "lightning_talks.md" "r" :: h) "lightning_talks.md" = Ok c.

(** The file of the lightning talks is absent or unreadable: opening it
    fails, or reading it does. *)
Definition fragment_unreadable (E : Env) (h : history) : Prop :=
  (∃ e, open_file E h "lightning_talks.md" "r" = Some e)
  ∨ (open_file E h "lightning_talks.md" "r" = None
     ∧ ∃ e, file_read E (EvOpen "lightning_talks.md" "r" :: h) "lightning_talks.md" = Raise e).

(** The characters of a slug: lower-case letters, digits and the hyphen. *)
Definition slug_char (c : ascii) : bool :=
  let n := N_of_ascii c in
  ((48 <=? n)%N && (n <=? 57)%N) || ((97 <=? n)%N && (n <=? 122)%N) || (n =? 45)%N.

Definition slug_ok (slugify : string → string) : Prop :=
  ∀ s, Str.forallb slug_char (slugify s) = true.

(** The effects of the constructor: directories, requests, and files opened
    in binary mode and written in pieces.  The exporter opens its file in
    text mode and writes a text. *)
Definition init_event (ev : event) : Prop :=
  match ev with
  | EvMkdir _ | EvGet _ | EvWrite _ _ => True
  | EvOpen _ mode => mode = "wb"
  | EvWriteText _ _ | EvRead _ | EvNow => False
  end.

(** The effect neither opens nor writes a file called [name]. *)
Definition spares (name : string) (ev : event) : Prop :=
  match ev with
  | EvOpen p _ | EvWrite p _ | EvWriteText p _ => os_path_basename p ≠ name
  | _ => True
  end.

(** Whatever the history, the computation adds to it only effects that
    satisfy [P]. *)
Definition emits {A} (P : event → Prop) (m : M A) : Prop :=
  ∀ h, ∃ new, snd (m h) = new ++ h ∧ Forall P new.

(** What the constructor may do: effects of its own kind, which leave
    README.md alone when [slugify] yields slugs. *)
Definition init_effect (slugify : string → string) (ev : event) : Prop :=
  init_event ev ∧ (slug_ok slugify → spares "README.md" ev).

(** What [_get_talks] makes of a talk when the files go under [out]: a talk
    without files is left as it is, the [attachments] of a talk with files
    are the records of its descriptors. *)
Definition processed (slugify : string → string) (out : string) (talk : Talk.t) : Talk.t :=
  match default [] (Talk.files talk) with
  | [] => talk
  | a :: l =>
      Talk.set_attachments
        (map (resolved slugify (os_path_join out (slugify (default "" (Talk.name talk)))))
           (a :: l))
        talk
  end.

(** The effects of one kind in a history, the oldest first. *)
Definition trace_of {A} (f : event → option A) (h : history) : list A := rev (omap f h).

Definition requested (ev : event) : option string :=
  match ev with EvGet url => Some url | _ => None end.

Definition made_dir (ev : event) : option string :=
  match ev with EvMkdir dir => Some dir | _ => None end.

Definition opened (ev : event) : option (string * string) :=
  match ev with EvOpen path mode => Some (path, mode) | _ => None end.

(** A line feed or a carriage return. *)
Definition is_break (c : ascii) : bool := Ascii.eqb c LF || Ascii.eqb c CR.

(** The built-in settings of [__init__], before the keyword arguments. *)
Definition default_settings (environ : gmap string string) : gmap string (option string) :=
  {[ "output_dir" := Some "files";
     "api_key" := match environ !! "SCHED_API_KEY" with
                  | Some v => Some v
                  | None => environ !! "SCHED_KEY"
                  end ]}.

(** ** Sample inputs

    A slug function for plain ASCII text (lower case, each run of characters
    other than letters and digits becomes one hyphen, none at either end), a
    schedule of three entries and a few environments to run the program in. *)

Module Sample.

Definition lower (c : ascii) : ascii :=
  let n := N_of_ascii c in
  if (65 <=? n)%N && (n <=? 90)%N then ascii_of_N (n + 32) else c.

Definition is_alnum (c : ascii) : bool :=
  let n := N_of_ascii c in
  ((48 <=? n)%N && (n <=? 57)%N) || ((97 <=? n)%N && (n <=? 122)%N).

Fixpoint slug_go (started pending : bool) (s : string) : string :=
  match s with
  | EmptyString => EmptyString
  | String c s' =>
      let c := lower c in
      if is_alnum c then
        if started && pending then String "-" (String c (slug_go true false s'))
        else String c (slug_go true false s')
      else slug_go started true s'
  end.

Definition slugify (s : string) : string := slug_go false false s.

Definition keynote : Talk.t :=
  Talk.mk (Some (SStr "a1b2")) (Some "Intro: PyCon ES!")
    (Some [Speaker.mk (Some "Ada"); Speaker.mk None; Speaker.mk (Some "Grace")])
    (Some "2019-10-05 09:30:00")
    (Some ("line1" +:+ nl +:+ "line2" +:+ String CR nl))
    (Some [FileDesc.mk (Some "https://cdn.example/1") (Some "My Slides.v2.PDF");
           FileDesc.mk (Some "https://cdn.example/2") (Some "notes")])
    None.

Definition coffee : Talk.t :=
  Talk.mk (Some (SInt 42)) (Some "Coffee break") (Some []) (Some "2019-10-05 11:00:00")
    None None None.

Definition workshop : Talk.t :=
  Talk.mk (Some (SInt 7)) (Some "Workshop") (Some [Speaker.mk None]) None (Some "") (Some []) None.

Definition schedule : list Talk.t := [keynote; coffee; workshop].

(** A body that stands for the JSON text of [schedule], and an error page. *)
Definition body : list byte := bytes_of "[...]".
Definition html : list byte := bytes_of ("<html>" +:+ nl +:+ "</html>").

(** A parser that knows the one body. *)
Definition json_loads (b : list byte) : option (list Talk.t) :=
  if String.eqb (bytes_text b) (bytes_text body) then Some schedule else None.

(** Every request is answered with status [status] and body [b]; the file
    system accepts every operation; there is no lightning-talks file unless
    [lt] holds its text. *)
Definition env (status : Z) (b : list byte) (lt : option string) : Env :=
  mkEnv {[ "SCHED_KEY" := "k2" ]}
    (λ _ _, Ok (mkResponse status b))
    (λ h d, if existsb (λ ev, match ev with EvMkdir d' => String.eqb d d' | _ => false end) h
            then Some FileExistsError else None)
    (λ _ p mode,
       if String.eqb p "lightning_talks.md" && String.eqb mode "r"
       then match lt with Some _ => None | None => Some (OtherError "FileNotFoundError") end
       else None)
    (λ _ _ _, None)
    (λ _ _ _, None)
    (λ _ _, match lt with Some s => Ok s | None => Raise (OtherError "FileNotFoundError") end)
    (λ _, "2019/10/06 18:00").

(** The schedule is served, and the script is run without flags. *)
Definition online : Env := env 200 body None.

Definition self : SchedTalks := configured (environ online) None None.

(** As [online], but the second file of the keynote cannot be created. *)
Definition read_only : Env :=
  mkEnv (environ online) (requests_get online) (os_mkdir online)
    (λ _ p _, if String.eqb p "files/intro-pycon-es/notes"
              then Some (OtherError "PermissionError") else None)
    (file_write online) (file_write_text online) (file_read online) (datetime_now online).

(** As [online], but the request for the second file of the keynote is
    not answered. *)
Definition flaky : Env :=
  mkEnv (environ online)
    (λ _ url, if String.eqb url "https://cdn.example/2"
              then Raise (OtherError "ConnectionError")
              else Ok (mkResponse 200 body))
    (os_mkdir online) (open_file online) (file_write online) (file_write_text online)
    (file_read online) (datetime_now online).

(** No directory can be made. *)
Definition no_disk : Env :=
  mkEnv (environ online) (requests_get online)
    (λ _ _, Some (OtherError "PermissionError"))
    (open_file online) (file_write online) (file_write_text online) (file_read online)
    (datetime_now online).

(** The network is down. *)
Definition env_offline : Env :=
  mkEnv ∅
    (λ _ _, Raise (OtherError "ConnectionError"))
    (λ _ _, None) (λ _ _ _, None) (λ _ _ _, None) (λ _ _ _, None)
    (λ _ _, Raise (OtherError "FileNotFoundError"))
    (λ _, "2019/10/06 18:00").

End Sample.

(** * Properties *)

(** ** Examples of the library functions *)

Example splitext_ex1 : os_path_splitext "Slides v2.final.PDF" = ("Slides v2.final", ".PDF").
Proof. reflexivity. Qed.
Example splitext_ex2 : os_path_splitext ".bashrc" = (".bashrc", "").
Proof. reflexivity. Qed.
Example splitext_ex3 : os_path_splitext "a.b/c" = ("a.b/c", "").
Proof. reflexivity. Qed.
Example splitext_ex4 : os_path_splitext "dir/..x.y" = ("dir/..x", ".y").
Proof. reflexivity. Qed.
Example join_ex1 : os_path_join "files" "intro" = "files/intro".
Proof. reflexivity. Qed.
Example join_ex2 : os_path_join "files/" "" = "files/".
Proof. reflexivity. Qed.
Example join_ex3 : os_path_join "files" "/etc" = "/etc".
Proof. reflexivity. Qed.
Example bytes_repr_ex1 : bytes_repr (bytes_of "<html>") = "b'<html>'".
Proof. reflexivity. Qed.
Example bytes_repr_ex2 : bytes_repr (bytes_of "it's") = String "b" (String DQUOTE ("it's" +:+ String DQUOTE "")).
Proof. reflexivity. Qed.
Example bytes_repr_ex3 : bytes_repr (bytes_of ("a" +:+ nl)) = "b'a\n'".
Proof. reflexivity. Qed.
Example bytes_repr_ex4 : bytes_repr [x00; xff; x7f] = "b'\x00\xff\x7f'".
Proof. reflexivity. Qed.
Example iter_content_ex :
  iter_content (mkResponse 200 [x01; x02; x03; x04; x05]) 2 = [[x01; x02]; [x03; x04]; [x05]].
Proof. reflexivity. Qed.

(** ** Facts about strings *)

Lemma append_nil_l (s : string) : "" +:+ s = s.
Proof. reflexivity. Qed.

Lemma append_cons (a : ascii) (s t : string) : String a s +:+ t = String a (s +:+ t).
Proof. reflexivity. Qed.

Lemma append_nil_r (s : string) : s +:+ "" = s.
Proof. induction s as [|a s IH]; [reflexivity |]. now rewrite append_cons, IH. Qed.

Lemma append_assoc (a b c : string) : (a +:+ b) +:+ c = a +:+ (b +:+ c).
Proof. induction a as [|x a IH]; [reflexivity |]. now rewrite !append_cons, IH. Qed.

Create Rewrite HintDb str.
#[export] Hint Rewrite append_nil_l append_cons append_nil_r append_assoc : str.




(** ** The configuration *)

Section Configuration.

Variable environ : gmap string string.
Variables flag_o flag_t : option string.

Lemma configured_output_dir : output_dir (configured environ flag_o flag_t) = Some (default "files" flag_o).
Proof.
  unfold output_dir, settings_get, configured, init_settings, main_options, parse_args. simpl.
  destruct (truthy _); simpl.
  - rewrite lookup_union_l'; [| by eexists; simplify_map_eq].
    by simplify_map_eq.
  - rewrite lookup_union_l'; [| by eexists; simplify_map_eq].
    by simplify_map_eq.
Qed.


End Configuration.


(** ** Running computations *)

Lemma bind_ok {A B} (m : M A) (k : A → M B) h a h' :
  m h = (Ok a, h') → bind m k h = k a h'.
Proof. intros H. unfold bind. now rewrite H. Qed.

Lemma bind_raise {A B} (m : M A) (k : A → M B) h e h' :
  m h = (Raise e, h') → bind m k h = (Raise e, h').
Proof. intros H. unfold bind. now rewrite H. Qed.

Lemma bind_inv {A B} (m : M A) (k : A → M B) h b h' :
  bind m k h = (Ok b, h') → ∃ a h1, m h = (Ok a, h1) ∧ k a h1 = (Ok b, h').
Proof.
  unfold bind. destruct (m h) as [[a|e] h1]; intros H; [eauto | discriminate].
Qed.

Section Fetch.

Variable slugify : string → string.
Variable json_loads : list byte → option (list Talk.t).
Variable E : Env.

Lemma init_after_mkdir kwargs h h1 :
  let self := mkSchedTalks None [] (init_settings (environ E) kwargs) in
  _mkdir E (output_dir self) h = (Ok tt, h1) →
  __init__ slugify json_loads E kwargs h = _get_talks slugify json_loads E self h1.
Proof. intros self H. unfold __init__. now rewrite (bind_ok _ _ _ _ _ H). Qed.

(** A response that is falsy leaves the [json] slot unset, and the loop
    over [self.json] raises. *)
Lemma get_talks_falsy self h r :
  json self = None →
  requests_get E h (schedule_url (api_key self)) = Ok r →
  Response_bool r = false →
  _get_talks slugify json_loads E self h
  = (Raise (AttributeError "json"), EvGet (schedule_url (api_key self)) :: h).
Proof.
  intros Hjson Hget Hbool. unfold _get_talks, get, perform, bind.
  rewrite Hget, Hbool. unfold ret. now rewrite Hjson.
Qed.


(** The settings stay as the constructor made them. *)
Lemma get_talks_settings self h self' h' :
  _get_talks slugify json_loads E self h = (Ok self', h') →
  settings self' = settings self.
Proof.
  unfold _get_talks. intros H.
  apply bind_inv in H as (talks_response & h1 & _ & H).
  apply bind_inv in H as (self1 & h2 & Hself & H).
  apply bind_inv in H as (self_json & h3 & _ & H).
  apply bind_inv in H as (talks' & h4 & _ & H).
  injection H as <- _. cbn [settings].
  destruct (Response_bool talks_response).
  - destruct (json_loads (content talks_response)); [| discriminate Hself].
    now injection Hself as <- _.
  - now injection Hself as <- _.
Qed.

Lemma constructed_settings kwargs h self h' :
  __init__ slugify json_loads E kwargs h = (Ok self, h') →
  settings self = init_settings (environ E) kwargs.
Proof.
  unfold __init__. intros H.
  apply bind_inv in H as ([] & h1 & _ & H).
  now apply get_talks_settings in H.
Qed.

End Fetch.

(** ** Sample runs *)

(** The schedule is served: the three entries are fetched, the two files of
    the keynote are stored, and README.md is written; the coffee break is
    left out. *)
Example online_run :
  ∃ h,
    main Sample.slugify Sample.json_loads Sample.online None None []
    = (Ok tt,
       EvWriteText "README.md"
         (unlines
            ["# PyConES 2019 Conferences and their related stuff";
             "It contains all available talks, their attachments and other interesting information.";
             "## Talks";
             "### Intro: PyCon ES!";
             "  - :snake: _Ada, Unknown, Grace_";
             "  - :alarm_clock:  2019-10-05 09:30:00";
             "  - :clipboard:  line1line2";
             "  - :open_file_folder: Attachments";
             "    - :paperclip: [My Slides.v2.PDF](files/intro-pycon-es/my-slides-v2.PDF)";
             "    - :paperclip: [notes](files/intro-pycon-es/notes)";
             "  - :link: [More info](https://pycones19.sched.com/event/a1b2)";
             "### Workshop";
             "  - :snake: _Unknown_";
             "  - :alarm_clock:  None";
             "  - :link: [More info](https://pycones19.sched.com/event/7)";
             ""]
          +:+ "_Automatically created with :hearts: at 2019/10/06 18:00_")
       :: h).
Proof. eexists. vm_compute. reflexivity. Qed.

(** The network is down: [requests.get] raises, there is no response. *)
Example offline_run :
  main Sample.slugify Sample.json_loads Sample.env_offline None None []
  = (Raise (OtherError "ConnectionError"),
     [EvGet (schedule_url None); EvMkdir "files"]).
Proof. vm_compute. reflexivity. Qed.



(** C1. The schedule request is answered with an error status (a falsy
    response): the constructor does not go on with an empty list of talks,
    it raises [AttributeError] for the [json] slot that was never assigned. *)
Theorem falsy_response_raises (slugify : string → string)
    (json_loads : list byte → option (list Talk.t)) (E : Env)
    (kwargs : gmap string (option string)) (h h1 : history) (r : Response) :
  let self := mkSchedTalks None [] (init_settings (environ E) kwargs) in
  _mkdir E (output_dir self) h = (Ok tt, h1) →
  requests_get E h1 (schedule_url (api_key self)) = Ok r →
  Response_bool r = false →
  __init__ slugify json_loads E kwargs h
  = (Raise (AttributeError "json"), EvGet (schedule_url (api_key self)) :: h1).
Proof.
  intros self Hmk Hget Hbool.
  rewrite (init_after_mkdir _ _ _ _ _ _ Hmk).
  now apply get_talks_falsy with r.
Qed.

Lemma falsy_response_raises_witness :
  __init__ Sample.slugify Sample.json_loads (Sample.env 500 Sample.html None)
    (main_options None (Some "tok")) []
  = (Raise (AttributeError "json"),
     [EvGet (schedule_url (Some "tok")); EvMkdir "files"]).
Proof.
  apply (falsy_response_raises Sample.slugify Sample.json_loads
           (Sample.env 500 Sample.html None) (main_options None (Some "tok"))
           [] [EvMkdir "files"] (mkResponse 500 Sample.html));
    vm_compute; reflexivity.
Defined.




(** ** The renderer *)

Lemma mem_app c (a b : string) : Str.mem c (a +:+ b) = Str.mem c a || Str.mem c b.
Proof.
  induction a as [|x a IH]; [reflexivity |].
  rewrite append_cons. simpl. destruct (Ascii.eqb x c); [reflexivity | exact IH].
Qed.



Lemma replace_empty_filter c s :
  Str.replace c "" s = Str.filter (λ a, negb (Ascii.eqb a c)) s.
Proof.
  induction s as [|a s IH]; [reflexivity |].
  simpl. destruct (Ascii.eqb a c); simpl; [now rewrite append_nil_l | now rewrite IH].
Qed.

Lemma filter_filter p q s :
  Str.filter p (Str.filter q s) = Str.filter (λ a, q a && p a) s.
Proof.
  induction s as [|a s IH]; [reflexivity |].
  simpl. destruct (q a); simpl; [destruct (p a); simpl; now rewrite IH | exact IH].
Qed.

Lemma mem_filter p c s : p c = false → Str.mem c (Str.filter p s) = false.
Proof.
  intros Hc. induction s as [|a s IH]; [reflexivity |].
  simpl. destruct (p a) eqn:Hp; [| exact IH].
  simpl. destruct (Ascii.eqb_spec a c) as [-> |]; [congruence | exact IH].
Qed.

Lemma clean_description_filter d : clean_description d = Str.filter no_break d.
Proof. unfold clean_description. now rewrite !replace_empty_filter, filter_filter. Qed.

Lemma clean_description_one_line d : one_line (clean_description d).
Proof. rewrite clean_description_filter. now apply mem_filter. Qed.

Lemma has_speakers_names talk :
  has_speakers talk = true → ∃ s ss, speaker_names talk = s :: ss.
Proof.
  unfold has_speakers, speaker_names.
  destruct (Talk.speakers talk) as [[|sp sps]|]; try discriminate. simpl. eauto.
Qed.

Lemma no_speakers_names talk : has_speakers talk = false → speaker_names talk = [].
Proof.
  unfold has_speakers, speaker_names.
  now destruct (Talk.speakers talk) as [[|sp sps]|].
Qed.

Lemma as_md_step_skip doc talk : has_speakers talk = false → as_md_step doc talk = doc.
Proof. intros H. unfold as_md_step. now rewrite (no_speakers_names _ H). Qed.

Lemma as_md_step_render doc talk :
  has_speakers talk = true →
  as_md_step doc talk = doc +:+ talk_md talk (speaker_names talk) +:+ nl.
Proof.
  intros H. unfold as_md_step.
  destruct (has_speakers_names _ H) as (s & ss & ->). reflexivity.
Qed.

Lemma as_md_step_app doc talk : as_md_step doc talk = doc +:+ as_md_step "" talk.
Proof.
  destruct (has_speakers talk) eqn:H.
  - now rewrite !as_md_step_render by assumption.
  - rewrite !as_md_step_skip by assumption. now rewrite append_nil_r.
Qed.

Lemma fold_as_md_step talks doc :
  fold_left as_md_step talks doc = doc +:+ Str.concat (map (as_md_step "") talks).
Proof.
  revert doc. induction talks as [|talk talks IH]; intros doc; simpl.
  - now rewrite append_nil_r.
  - rewrite IH, (as_md_step_app doc talk). apply append_assoc.
Qed.









(** *** Lines and headings *)














Lemma rendered_block talk sp sps :
  Talk.speakers talk = Some (sp :: sps) →
  as_md_step "" talk
  = "### " +:+ fmt_str (Talk.name talk) +:+ nl +:+
    "  - :snake: _" +:+ Str.join ", " (map speaker_name (sp :: sps)) +:+ "_" +:+ nl +:+
    ("  - :alarm_clock:  " +:+ fmt_str (Talk.event_start talk) +:+ nl +:+
     description_md talk +:+ attachments_md talk +:+
     "  - :link: [More info](https://pycones19.sched.com/event/" +:+
     fmt_scalar (Talk.id talk) +:+ ")" +:+ nl).
Proof.
  intros Hsp. rewrite as_md_step_render by (unfold has_speakers; now rewrite Hsp).
  unfold talk_md, speaker_names. rewrite Hsp. cbn [default].
  now rewrite append_nil_l, !append_assoc.
Qed.




(** C10. A speaker without a name is printed as Unknown and counts as a
    speaker: a talk with at least one speaker, named or not, is rendered, and
    its speakers line joins, in order, the name of each speaker or Unknown
    where there is none. *)
Theorem unnamed_speaker_unknown (talk : Talk.t) (doc : string) (sps : list Speaker.t) :
  Talk.speakers talk = Some sps →
  sps ≠ [] →
  ∃ rest,
    as_md_step doc talk
    = doc +:+ "### " +:+ fmt_str (Talk.name talk) +:+ nl +:+
      "  - :snake: _"
      +:+ Str.join ", "
            (map (λ sp, match Speaker.name sp with Some n => n | None => "Unknown" end) sps)
      +:+ "_" +:+ nl +:+ rest.
Proof.
  intros Hsp Hne. destruct sps as [|sp sps]; [contradiction |].
  eexists. rewrite as_md_step_app, (rendered_block _ _ _ Hsp). reflexivity.
Qed.

Lemma unnamed_speaker_unknown_witness :
  ∃ rest,
    as_md_step HEADER Sample.workshop
    = HEADER +:+ "### Workshop" +:+ nl +:+ "  - :snake: _Unknown_" +:+ nl +:+ rest.
Proof.
  apply (unnamed_speaker_unknown Sample.workshop HEADER [Speaker.mk None]);
    [reflexivity | discriminate].
Defined.

(** C7. A description that is not empty is printed on one line, with every
    line feed and carriage return taken out and nothing put in their place:
    what is printed is the description without these characters, the other
    characters in their order. *)
Theorem description_breaks_removed (talk : Talk.t) (doc d : string) :
  has_speakers talk = true →
  Talk.description talk = Some d →
  d ≠ "" →
  as_md_step doc talk
  = doc +:+ "### " +:+ fmt_str (Talk.name talk) +:+ nl +:+
    "  - :snake: _" +:+ Str.join ", " (speaker_names talk) +:+ "_" +:+ nl +:+
    "  - :alarm_clock:  " +:+ fmt_str (Talk.event_start talk) +:+ nl +:+
    "  - :clipboard:  " +:+ clean_description d +:+ nl +:+
    attachments_md talk +:+
    "  - :link: [More info](https://pycones19.sched.com/event/" +:+
    fmt_scalar (Talk.id talk) +:+ ")" +:+ nl
  ∧ clean_description d = Str.filter no_break d
  ∧ Str.mem LF (clean_description d) = false
  ∧ Str.mem CR (clean_description d) = false.
Proof.
  intros Hsp Hd Hne. repeat split.
  - rewrite as_md_step_render by assumption.
    unfold talk_md, description_md. rewrite Hd.
    destruct d as [|c d]; [contradiction |]. cbn [truthy default].
    now rewrite !append_assoc.
  - apply clean_description_filter.
  - apply clean_description_one_line.
  - rewrite clean_description_filter. now apply mem_filter.
Qed.

Lemma description_breaks_removed_witness :
  Talk.description Sample.keynote = Some ("line1" +:+ nl +:+ "line2" +:+ String CR nl)
  ∧ clean_description ("line1" +:+ nl +:+ "line2" +:+ String CR nl) = "line1line2"
  ∧ Str.contains ("  - :clipboard:  line1line2" +:+ nl) (as_md_step "" Sample.keynote) = true.
Proof.
  destruct (description_breaks_removed Sample.keynote ""
              ("line1" +:+ nl +:+ "line2" +:+ String CR nl)
              eq_refl eq_refl ltac:(discriminate))
    as (Hmd & Hclean & _).
  split; [reflexivity |].
  split; [rewrite Hclean | rewrite Hmd]; reflexivity.
Defined.

(** ** Paths *)

Lemma str_length_app (a b : string) :
  String.length (a +:+ b) = (String.length a + String.length b)%nat.
Proof. induction a as [|x a IH]; [reflexivity |]. rewrite append_cons. simpl. now rewrite IH. Qed.

Lemma rfind_ge c s : -1 <= Str.rfind c s.
Proof.
  induction s as [|a s IH]; simpl; [lia |].
  destruct (0 <=? Str.rfind c s) eqn:H; [apply Z.leb_le in H; lia |].
  destruct (Ascii.eqb a c); lia.
Qed.

Lemma rfind_none c s : Str.mem c s = false → Str.rfind c s = -1.
Proof.
  induction s as [|a s IH]; simpl; [reflexivity |].
  destruct (Ascii.eqb a c); [discriminate |].
  intros H. rewrite (IH H). reflexivity.
Qed.

Lemma rfind_neg c s : Str.rfind c s < 0 → Str.mem c s = false.
Proof.
  induction s as [|a s IH]; simpl; [reflexivity |].
  destruct (0 <=? Str.rfind c s) eqn:H.
  - apply Z.leb_le in H. lia.
  - apply Z.leb_gt in H. destruct (Ascii.eqb a c); [lia | auto].
Qed.

Lemma rfind_drop c s n : Str.rfind c s < Z.of_nat n → Str.mem c (Str.drop n s) = false.
Proof.
  revert n. induction s as [|a s IH]; intros n H.
  - now destruct n.
  - destruct n as [|n].
    + apply rfind_neg. exact H.
    + simpl. apply IH. simpl in H.
      pose proof (rfind_ge c s).
      destruct (0 <=? Str.rfind c s) eqn:Hr; [lia |].
      apply Z.leb_gt in Hr. lia.
Qed.

Lemma rfind_app_none c d s : Str.mem c s = false → Str.rfind c (d +:+ s) = Str.rfind c d.
Proof.
  intros H. induction d as [|a d IH].
  - rewrite append_nil_l. now apply rfind_none.
  - rewrite append_cons. simpl. now rewrite IH.
Qed.

Lemma rfind_endswith c d :
  Str.endswith_char c d = true → Str.rfind c d = Z.of_nat (String.length d) - 1.
Proof.
  induction d as [|a d IH]; [discriminate |].
  destruct d as [|b d].
  - simpl. intros ->. reflexivity.
  - intros H. change (Str.endswith_char c (String a (String b d)))
      with (Str.endswith_char c (String b d)) in H.
    specialize (IH H).
    change (Str.rfind c (String a (String b d)))
      with (let r := Str.rfind c (String b d) in
            if 0 <=? r then 1 + r else if Ascii.eqb a c then 0 else -1).
    cbv zeta. rewrite IH.
    change (String.length (String a (String b d))) with (S (String.length (String b d))).
    destruct (0 <=? Z.of_nat (String.length (String b d)) - 1) eqn:Hle.
    + lia.
    + apply Z.leb_gt in Hle. simpl in Hle. lia.
Qed.

Lemma drop_length_app d s : Str.drop (String.length d) (d +:+ s) = s.
Proof. induction d as [|a d IH]; [reflexivity |]. rewrite append_cons. exact IH. Qed.

Lemma mem_startswith c s : Str.mem c s = false → Str.startswith (String c "") s = false.
Proof.
  destruct s as [|a s]; [reflexivity |]. simpl.
  rewrite (Ascii.eqb_sym c a). now destruct (Ascii.eqb a c).
Qed.

(** [os.path.join(a, '')] is [a] as a directory: empty, or ending with the
    separator. *)
Lemma join_empty_dir a :
  os_path_join a "" = "" ∨ Str.endswith_char "/" (os_path_join a "") = true.
Proof.
  unfold os_path_join. cbn [Str.startswith].
  destruct (String.eqb_spec a "") as [-> | Hne]; [now left |].
  cbn [orb]. destruct (Str.endswith_char "/" a) eqn:He.
  - right. now rewrite append_nil_r.
  - right. rewrite append_nil_r. clear Hne He.
    induction a as [|x a IH]; [reflexivity |].
    rewrite append_cons. destruct a as [|y a]; [reflexivity |]. exact IH.
Qed.

Lemma join_relative a b :
  Str.startswith "/" b = false → os_path_join a b = os_path_join a "" +:+ b.
Proof.
  intros Hb. unfold os_path_join. rewrite Hb. cbn [Str.startswith].
  destruct (String.eqb a "" || Str.endswith_char "/" a).
  - now rewrite append_nil_r.
  - now rewrite append_nil_r, append_assoc.
Qed.

Lemma join_empty a b : os_path_join a b = "" → a = "".
Proof.
  unfold os_path_join.
  destruct (Str.startswith "/" b) eqn:Hb.
  - intros ->. discriminate Hb.
  - destruct (String.eqb a "" || Str.endswith_char "/" a).
    + destruct a; [reflexivity | discriminate].
    + destruct a; [reflexivity | discriminate].
Qed.

Lemma basename_in_dir d c :
  d = "" ∨ Str.endswith_char "/" d = true →
  Str.mem "/" c = false →
  os_path_basename (d +:+ c) = c.
Proof.
  intros Hd Hc. unfold os_path_basename. rewrite (rfind_app_none _ _ _ Hc).
  destruct Hd as [-> | Hd].
  - reflexivity.
  - rewrite (rfind_endswith _ _ Hd).
    replace (Z.to_nat (Z.of_nat (String.length d) - 1 + 1)) with (String.length d) by lia.
    apply drop_length_app.
Qed.

(** The extension [os.path.splitext] returns holds no separator, and it is
    empty or starts with the dot. *)
Lemma splitext_ext_no_sep p : Str.mem "/" (snd (os_path_splitext p)) = false.
Proof.
  unfold os_path_splitext.
  destruct (Str.rfind "/" p <? Str.rfind "." p) eqn:Hlt; [| reflexivity].
  destruct (splitext_scan _ _ _); [| reflexivity].
  cbn [andb snd]. apply rfind_drop. apply Z.ltb_lt in Hlt.
  pose proof (rfind_ge "/" p). lia.
Qed.

Lemma splitext_concat p : fst (os_path_splitext p) +:+ snd (os_path_splitext p) = p.
Proof.
  unfold os_path_splitext.
  destruct (_ && _); cbn [fst snd]; [| apply append_nil_r].
  generalize (Z.to_nat (Str.rfind "." p)). intros n. revert p.
  induction n as [|n IH]; intros p; [reflexivity |].
  destruct p as [|a p]; [reflexivity |]. simpl. rewrite append_cons. now rewrite IH.
Qed.

(** ** The downloader *)

Section Download.

Variable slugify : string → string.
Variable E : Env.

Lemma download_step_inv self destination_path dir result attachment h res h' :
  (if truthy destination_path then destination_path else output_dir self) = Some dir →
  download_step slugify E self destination_path result attachment h = (Ok res, h') →
  is_Some (FileDesc.name attachment)
  ∧ is_Some (FileDesc.path attachment)
  ∧ res = result ++ [resolved slugify dir attachment].
Proof.
  intros Hdir. unfold download_step, resolved.
  destruct (FileDesc.name attachment) as [file_name|]; [| discriminate].
  cbn [splitext_py from_option id]. unfold bind at 1. cbn [ret].
  destruct (os_path_splitext file_name) as [cleaned_file_name file_extension].
  rewrite Hdir. cbn [join_py]. unfold bind at 1. cbn [ret].
  destruct (FileDesc.path attachment) as [file_url|]; [| discriminate].
  intros Hrun.
  apply bind_inv in Hrun as (get_response & h1 & _ & Hrun).
  apply bind_inv in Hrun as ([] & h2 & _ & Hrun).
  apply bind_inv in Hrun as ([] & h3 & _ & Hrun).
  injection Hrun as <- _.
  split; [eauto | split; [eauto | reflexivity]].
Qed.

Lemma download_attachments_inv self destination_path dir attachments result h res h' :
  (if truthy destination_path then destination_path else output_dir self) = Some dir →
  for_each (download_step slugify E self destination_path) attachments result h = (Ok res, h') →
  Forall (λ a, is_Some (FileDesc.name a) ∧ is_Some (FileDesc.path a)) attachments
  ∧ res = result ++ map (resolved slugify dir) attachments.
Proof.
  intros Hdir. revert result h.
  induction attachments as [|a attachments IH]; intros result h Hrun.
  - injection Hrun as <- _. split; [constructor | now rewrite app_nil_r].
  - cbn [for_each] in Hrun.
    apply bind_inv in Hrun as (acc & h1 & Hstep & Hrun).
    destruct (download_step_inv _ _ _ _ _ _ _ _ Hdir Hstep) as (Hn & Hp & ->).
    destruct (IH _ _ Hrun) as (Hall & ->).
    split; [now constructor |]. now rewrite <- app_assoc.
Qed.

Lemma effective_destination self out slug :
  output_dir self = Some out →
  (if truthy (Some (os_path_join out slug)) then Some (os_path_join out slug)
   else output_dir self)
  = Some (os_path_join out slug).
Proof.
  intros Hout. destruct (os_path_join out slug) eqn:Hj; [| reflexivity].
  cbn [truthy]. rewrite Hout. f_equal. now apply join_empty in Hj.
Qed.

(** A talk without files is appended as it is. *)
Lemma get_talks_step_no_files self talks talk h :
  default [] (Talk.files talk) = [] →
  get_talks_step slugify E self talks talk h = (Ok (talks ++ [talk]), h).
Proof. intros H. unfold get_talks_step. rewrite H. reflexivity. Qed.

(** A talk with files that is processed has a name, and its attachments are
    the records of its descriptors, all in the directory of the talk. *)
Lemma get_talks_step_files self talks talk h talks' h' :
  default [] (Talk.files talk) ≠ [] →
  get_talks_step slugify E self talks talk h = (Ok talks', h') →
  ∃ out name,
    output_dir self = Some out
    ∧ Talk.name talk = Some name
    ∧ Forall (λ a, is_Some (FileDesc.name a) ∧ is_Some (FileDesc.path a))
        (default [] (Talk.files talk))
    ∧ talks' = talks ++ [Talk.set_attachments
                           (map (resolved slugify (os_path_join out (slugify name)))
                              (default [] (Talk.files talk))) talk].
Proof.
  intros Hfiles. unfold get_talks_step.
  destruct (default [] (Talk.files talk)) as [|a attachments] eqn:Hd; [contradiction |].
  intros Hrun.
  apply bind_inv in Hrun as (talk' & h1 & Hrun & Hret).
  injection Hret as <- <-.
  destruct (Talk.name talk) as [name|]; [| discriminate].
  cbn [slugify_py] in Hrun. unfold bind at 1 in Hrun. cbn [ret] in Hrun.
  destruct (output_dir self) as [out|] eqn:Hout; [| discriminate].
  cbn [join_py] in Hrun. unfold bind at 1 in Hrun. cbn [ret] in Hrun.
  apply bind_inv in Hrun as ([] & h2 & _ & Hrun).
  apply bind_inv in Hrun as (res & h3 & Hdl & Hret).
  injection Hret as <- <-.
  unfold _download_attachments in Hdl.
  apply (download_attachments_inv _ _ _ _ _ _ _ _ (effective_destination _ _ _ Hout))
    in Hdl as (Hall & ->).
  exists out, name. auto.
Qed.

End Download.

Lemma Forall2_map_self {A B} (R : A → B → Prop) (f : A → B) (l : list A) :
  Forall (λ x, R x (f x)) l → Forall2 R l (map f l).
Proof. induction 1; simpl; constructor; assumption. Qed.

Lemma resolved_path slugify dir attachment file_name :
  (∀ s, Str.mem "/" (slugify s) = false) →
  FileDesc.name attachment = Some file_name →
  let base := fst (os_path_splitext file_name) in
  let ext := snd (os_path_splitext file_name) in
  Attachment.file_path (resolved slugify dir attachment)
  = os_path_join dir "" +:+ slugify base +:+ ext
  ∧ os_path_basename (Attachment.file_path (resolved slugify dir attachment))
    = slugify base +:+ ext.
Proof.
  intros Hslug Hname base ext. unfold resolved. rewrite Hname. cbn [from_option id].
  pose proof (splitext_ext_no_sep file_name) as Hext.
  fold ext in Hext. subst base ext.
  destruct (os_path_splitext file_name) as [base ext]. cbn [fst snd Attachment.file_path] in *.
  assert (Hc : Str.mem "/" (slugify base +:+ ext) = false)
    by now rewrite mem_app, Hslug, Hext.
  rewrite (join_relative dir _ (mem_startswith _ _ Hc)).
  split; [reflexivity |].
  apply basename_in_dir; [apply join_empty_dir | exact Hc].
Qed.

Lemma has_speakers_set_attachments a talk :
  has_speakers (Talk.set_attachments a talk) = has_speakers talk.
Proof. reflexivity. Qed.

(** C5. Every attachment the downloader resolves for a talk is stored under
    the directory of the talk, which is the slug of the talk's name under
    [output_dir]; the last component of its path is the slug of the base of
    the original name followed by the original extension. *)
Theorem attachment_paths (slugify : string → string) (E : Env) (self : SchedTalks)
    (talks : list Talk.t) (talk : Talk.t) (h : history)
    (talks' : list Talk.t) (h' : history) :
  (∀ s, Str.mem "/" (slugify s) = false) →
  default [] (Talk.files talk) ≠ [] →
  get_talks_step slugify E self talks talk h = (Ok talks', h') →
  ∃ out name talk',
    output_dir self = Some out
    ∧ Talk.name talk = Some name
    ∧ talks' = talks ++ [talk']
    ∧ os_path_join out (slugify name) = os_path_join out "" +:+ slugify name
    ∧ Forall2 (λ attachment a,
         ∃ file_name,
           FileDesc.name attachment = Some file_name
           ∧ Attachment.file_path a
             = os_path_join (os_path_join out (slugify name)) ""
               +:+ slugify (fst (os_path_splitext file_name))
               +:+ snd (os_path_splitext file_name)
           ∧ os_path_basename (Attachment.file_path a)
             = slugify (fst (os_path_splitext file_name))
               +:+ snd (os_path_splitext file_name))
        (default [] (Talk.files talk)) (default [] (Talk.attachments talk')).
Proof.
  intros Hslug Hfiles Hrun.
  destruct (get_talks_step_files _ _ _ _ _ _ _ _ Hfiles Hrun)
    as (out & name & Hout & Hname & Hall & ->).
  exists out, name. eexists. repeat split; try eassumption; try reflexivity.
  - apply join_relative, mem_startswith, Hslug.
  - cbn [Talk.set_attachments Talk.attachments from_option id].
    apply Forall2_map_self. eapply Forall_impl; [exact Hall |].
    intros attachment [[file_name Hn] _]. exists file_name.
    split; [exact Hn |]. now apply resolved_path.
Qed.

(** C4. A talk with speakers whose descriptors were all resolved is
    rendered with one entry per descriptor, in the order of the descriptors;
    each entry is a link that shows the original name of the file and points
    to the local path computed for it.  The entries follow the Attachments
    line, and there is neither line nor entry for a talk without files. *)
Theorem attachments_rendered (slugify : string → string) (E : Env) (self : SchedTalks)
    (talks : list Talk.t) (talk : Talk.t) (h : history)
    (talks' : list Talk.t) (h' : history) (doc : string) :
  has_speakers talk = true →
  (default [] (Talk.files talk) = [] → Talk.attachments talk = None) →
  get_talks_step slugify E self talks talk h = (Ok talks', h') →
  ∃ talk',
    talks' = talks ++ [talk']
    ∧ length (attachment_entries talk') = length (default [] (Talk.files talk))
    ∧ Forall2 (λ attachment entry,
         ∃ out name file_name,
           output_dir self = Some out
           ∧ Talk.name talk = Some name
           ∧ FileDesc.name attachment = Some file_name
           ∧ entry
             = "    - :paperclip: [" +:+ file_name +:+ "](" +:+
               os_path_join (os_path_join out (slugify name))
                 (slugify (fst (os_path_splitext file_name))
                  +:+ snd (os_path_splitext file_name))
               +:+ ")" +:+ nl)
        (default [] (Talk.files talk)) (attachment_entries talk')
    ∧ as_md_step doc talk'
      = doc +:+ "### " +:+ fmt_str (Talk.name talk) +:+ nl +:+
        "  - :snake: _" +:+ Str.join ", " (speaker_names talk) +:+ "_" +:+ nl +:+
        "  - :alarm_clock:  " +:+ fmt_str (Talk.event_start talk) +:+ nl +:+
        description_md talk +:+
        match default [] (Talk.files talk) with
        | [] => ""
        | _ :: _ => "  - :open_file_folder: Attachments" +:+ nl
        end +:+
        Str.concat (attachment_entries talk') +:+
        "  - :link: [More info](https://pycones19.sched.com/event/" +:+
        fmt_scalar (Talk.id talk) +:+ ")" +:+ nl.
Proof.
  intros Hsp Hraw Hrun.
  destruct (default [] (Talk.files talk)) as [|a attachments] eqn:Hfiles.
  - rewrite get_talks_step_no_files in Hrun by assumption.
    injection Hrun as <- _. exists talk.
    rewrite as_md_step_render by assumption.
    unfold attachment_entries, talk_md, attachments_md. rewrite (Hraw eq_refl).
    cbn [from_option id map length Str.concat].
    repeat split; [constructor |]. now rewrite !append_assoc.
  - assert (Hne : default [] (Talk.files talk) ≠ []) by now rewrite Hfiles.
    destruct (get_talks_step_files _ _ _ _ _ _ _ _ Hne Hrun)
      as (out & name & Hout & Hname & Hall & ->).
    rewrite Hfiles in *. eexists. split; [reflexivity |].
    unfold attachment_entries.
    cbn [Talk.set_attachments Talk.attachments from_option id].
    repeat split.
    + now rewrite !length_map.
    + rewrite map_map.
      apply Forall2_map_self. eapply Forall_impl; [exact Hall |].
      intros attachment [[file_name Hn] _]. exists out, name, file_name.
      repeat split; try assumption.
      unfold attachment_md, resolved. rewrite Hn. cbn [from_option id].
      now destruct (os_path_splitext file_name).
    + rewrite as_md_step_render by assumption.
      unfold talk_md, attachments_md, attachment_entries.
      cbn [Talk.set_attachments Talk.attachments Talk.name Talk.event_start Talk.id
           from_option id map].
      now rewrite !append_assoc.
Qed.

(** The sample slug function yields no separator. *)
Lemma sample_alnum_not_sep c : Sample.is_alnum c = true → Ascii.eqb c "/" = false.
Proof.
  intros H. destruct (Ascii.eqb_spec c "/") as [-> |]; [discriminate H | reflexivity].
Qed.

Lemma sample_slug_go_no_sep started pending s :
  Str.mem "/" (Sample.slug_go started pending s) = false.
Proof.
  revert started pending. induction s as [|a s IH]; intros started pending; [reflexivity |].
  simpl. destruct (Sample.is_alnum (Sample.lower a)) eqn:Ha; [| apply IH].
  apply sample_alnum_not_sep in Ha.
  destruct (started && pending); simpl; rewrite Ha; apply IH.
Qed.

Lemma sample_slugify_no_sep s : Str.mem "/" (Sample.slugify s) = false.
Proof. apply sample_slug_go_no_sep. Qed.

Lemma attachment_paths_witness :
  ∃ talks' h',
    get_talks_step Sample.slugify Sample.online Sample.self [] Sample.keynote []
    = (Ok talks', h')
    ∧ map Attachment.file_path (flat_map (λ t, default [] (Talk.attachments t)) talks')
      = ["files/intro-pycon-es/my-slides-v2.PDF"; "files/intro-pycon-es/notes"]
    ∧ ∃ out name talk',
        output_dir Sample.self = Some out
        ∧ Talk.name Sample.keynote = Some name
        ∧ talks' = [] ++ [talk']
        ∧ os_path_join out (Sample.slugify name) = os_path_join out "" +:+ Sample.slugify name
        ∧ Forall2 (λ attachment a,
             ∃ file_name,
               FileDesc.name attachment = Some file_name
               ∧ Attachment.file_path a
                 = os_path_join (os_path_join out (Sample.slugify name)) ""
                   +:+ Sample.slugify (fst (os_path_splitext file_name))
                   +:+ snd (os_path_splitext file_name)
               ∧ os_path_basename (Attachment.file_path a)
                 = Sample.slugify (fst (os_path_splitext file_name))
                   +:+ snd (os_path_splitext file_name))
            (default [] (Talk.files Sample.keynote)) (default [] (Talk.attachments talk')).
Proof.
  eexists _, _. split; [vm_compute; reflexivity |]. split; [reflexivity |].
  eapply (attachment_paths Sample.slugify Sample.online Sample.self [] Sample.keynote []);
    [apply sample_slugify_no_sep | discriminate | vm_compute; reflexivity].
Defined.

Lemma attachments_rendered_witness :
  ∃ talks' h',
    get_talks_step Sample.slugify Sample.online Sample.self [] Sample.keynote []
    = (Ok talks', h')
    ∧ ∃ talk',
        talks' = [] ++ [talk']
        ∧ attachment_entries talk'
          = ["    - :paperclip: [My Slides.v2.PDF](files/intro-pycon-es/my-slides-v2.PDF)" +:+ nl;
             "    - :paperclip: [notes](files/intro-pycon-es/notes)" +:+ nl]
        ∧ length (attachment_entries talk') = length (default [] (Talk.files Sample.keynote)).
Proof.
  eexists _, _. split; [vm_compute; reflexivity |].
  destruct (attachments_rendered Sample.slugify Sample.online Sample.self [] Sample.keynote []
              _ _ "" eq_refl ltac:(discriminate) eq_refl)
    as (talk' & Htalks & Hlen & _).
  exists talk'. split; [exact Htalks |]. split; [| exact Hlen].
  injection Htalks as <-. reflexivity.
Defined.

(** ** The lightning talks *)

Section Fragment.

Variable E : Env.

Lemma fragment_read h c :
  fragment_is E h c →
  _get_lighting_talks_content E h
  = (Ok c, EvRead "lightning_talks.md" :: EvOpen "lightning_talks.md" "r" :: h).
Proof.
  intros [Hopen Hread].
  unfold _get_lighting_talks_content, try_except, bind, perform_unit, perform.
  now rewrite Hopen, Hread.
Qed.

Lemma fragment_swallowed h :
  fragment_unreadable E h →
  ∃ h', _get_lighting_talks_content E h = (Ok "", h').
Proof.
  unfold _get_lighting_talks_content, try_except, bind, perform_unit, perform.
  intros [[e Hopen] | [Hopen [e Hread]]].
  - rewrite Hopen. eauto.
  - rewrite Hopen, Hread. eauto.
Qed.

Lemma as_md_run self h lt_content h' :
  _get_lighting_talks_content E h = (Ok lt_content, h') →
  as_md E self h
  = (Ok (finish_md (talks_section (talks self)) lt_content (datetime_now E h')), EvNow :: h').
Proof.
  intros H. unfold as_md. rewrite (bind_ok _ _ _ _ _ H). reflexivity.
Qed.

End Fragment.

(** C8, as stated: the text of a readable file of lightning talks would
    always be appended after a blank line.  An empty file refutes it: nothing
    is appended, the blank line neither. *)
Lemma empty_fragment_not_appended :
  ¬ (∀ (E : Env) (self : SchedTalks) (h : history) (c : string),
       fragment_is E h c →
       ∃ now h',
         as_md E self h
         = (Ok (talks_section (talks self) +:+ nl +:+ c +:+ nl +:+ footer now), h')).
Proof.
  intros H.
  destruct (H (Sample.env 200 Sample.body (Some "")) Sample.self [] "")
    as (now & h' & Hrun); [split; reflexivity |].
  vm_compute in Hrun. discriminate Hrun.
Qed.

(** C8, amended.  When the file of the lightning talks is there, readable
    and not empty, its text is appended as it is after a line break, which
    leaves a blank line before it.  When the file is absent, unreadable or
    empty, nothing is appended and no error comes out of [as_md]: the
    document is the talks section and the time stamp, as if the file had not
    been read. *)
Theorem lightning_talks_fragment (E : Env) (self : SchedTalks) (h : history) :
  (∀ c, fragment_is E h c → c ≠ "" →
     ∃ now h',
       as_md E self h
       = (Ok (talks_section (talks self) +:+ nl +:+ c +:+ nl +:+ footer now), h'))
  ∧ (fragment_unreadable E h ∨ fragment_is E h "" →
     ∃ now h',
       as_md E self h = (Ok (talks_section (talks self) +:+ nl +:+ footer now), h')).
Proof.
  split.
  - intros c Hc Hne.
    rewrite (as_md_run _ _ _ _ _ (fragment_read _ _ _ Hc)).
    unfold finish_md, footer. destruct c as [|x c]; [contradiction |].
    cbn [truthy]. rewrite !append_assoc. eexists _, _. reflexivity.
  - intros [Hbad | Hempty].
    + destruct (fragment_swallowed _ _ Hbad) as [h' Hlt].
      rewrite (as_md_run _ _ _ _ _ Hlt). eexists _, _. reflexivity.
    + rewrite (as_md_run _ _ _ _ _ (fragment_read _ _ _ Hempty)). eexists _, _. reflexivity.
Qed.

Lemma lightning_talks_fragment_witness :
  (∃ now h',
     as_md (Sample.env 200 Sample.body (Some "## Lightning talks")) Sample.self []
     = (Ok (talks_section [] +:+ nl +:+ "## Lightning talks" +:+ nl +:+ footer now), h'))
  ∧ (∃ now h',
       as_md (Sample.env 200 Sample.body None) Sample.self []
       = (Ok (talks_section [] +:+ nl +:+ footer now), h')).
Proof.
  split.
  - apply (lightning_talks_fragment (Sample.env 200 Sample.body (Some "## Lightning talks"))
             Sample.self []); [split; reflexivity | discriminate].
  - apply (lightning_talks_fragment (Sample.env 200 Sample.body None) Sample.self []).
    left. left. eexists. reflexivity.
Defined.

(** ** The effects of a run *)

Lemma emits_ret {A} P (a : A) : emits P (ret a).
Proof. intros h. exists []. split; [reflexivity | constructor]. Qed.

Lemma emits_raise {A} P e : emits P (@raise A e).
Proof. intros h. exists []. split; [reflexivity | constructor]. Qed.

Lemma emits_bind {A B} P (m : M A) (k : A → M B) :
  emits P m → (∀ a, emits P (k a)) → emits P (bind m k).
Proof.
  intros Hm Hk h. unfold bind.
  destruct (Hm h) as (n1 & H1 & F1).
  destruct (m h) as [[a|e] h1]; cbn [snd] in H1; subst h1.
  - destruct (Hk a (n1 ++ h)) as (n2 & H2 & F2).
    exists (n2 ++ n1). rewrite H2, app_assoc. split; [reflexivity | now apply Forall_app].
  - exists n1. split; [reflexivity | assumption].
Qed.

Lemma emits_bind_ret {A B} P (a : A) (k : A → M B) :
  emits P (k a) → emits P (bind (ret a) k).
Proof. intros H h. apply H. Qed.

Lemma emits_bind_raise {A B} P e (k : A → M B) : emits P (bind (raise e) k).
Proof. intros h. exists []. split; [reflexivity | constructor]. Qed.

Lemma emits_try_except {A} P (m : M A) (handler : exn → M A) :
  emits P m → (∀ e, emits P (handler e)) → emits P (try_except m handler).
Proof.
  intros Hm Hh h. unfold try_except.
  destruct (Hm h) as (n1 & H1 & F1).
  destruct (m h) as [[a|e] h1]; cbn [snd] in H1; subst h1.
  - exists n1. split; [reflexivity | assumption].
  - destruct (Hh e (n1 ++ h)) as (n2 & H2 & F2).
    exists (n2 ++ n1). rewrite H2, app_assoc. split; [reflexivity | now apply Forall_app].
Qed.

Lemma emits_perform {A} (P : event → Prop) ev (answer : history → outcome A) :
  P ev → emits P (perform ev answer).
Proof. intros H h. exists [ev]. split; [reflexivity | now constructor]. Qed.

Lemma emits_perform_unit (P : event → Prop) ev answer :
  P ev → emits P (perform_unit ev answer).
Proof. intros H h. exists [ev]. split; [reflexivity | now constructor]. Qed.

Lemma emits_for_each {A B} P (body : B → A → M B) (l : list A) (acc : B) :
  (∀ acc x, emits P (body acc x)) → emits P (for_each body l acc).
Proof.
  intros Hbody. revert acc. induction l as [|x l IH]; intros acc; cbn [for_each].
  - apply emits_ret.
  - apply emits_bind; [apply Hbody | apply IH].
Qed.

Create HintDb emits.
#[local] Hint Resolve emits_ret emits_raise emits_bind_raise emits_perform
  emits_perform_unit : emits.

(** *** Where the downloads go *)

Lemma rfind_drop_found c p :
  0 <= Str.rfind c p → ∃ t, Str.drop (Z.to_nat (Str.rfind c p)) p = String c t.
Proof.
  induction p as [|a p IH]; simpl; [lia |].
  destruct (0 <=? Str.rfind c p) eqn:Hr.
  - apply Z.leb_le in Hr. intros _.
    replace (Z.to_nat (1 + Str.rfind c p)) with (S (Z.to_nat (Str.rfind c p))) by lia.
    simpl. now apply IH.
  - destruct (Ascii.eqb_spec a c) as [-> |]; [| lia].
    intros _. simpl. eauto.
Qed.

Lemma splitext_ext_shape p :
  snd (os_path_splitext p) = "" ∨ ∃ t, snd (os_path_splitext p) = String "." t.
Proof.
  unfold os_path_splitext.
  destruct (Str.rfind "/" p <? Str.rfind "." p) eqn:Hlt; [| now left].
  destruct (splitext_scan _ _ _); [| now left].
  right. cbn [andb snd]. apply rfind_drop_found.
  apply Z.ltb_lt in Hlt. pose proof (rfind_ge "/" p). lia.
Qed.

Lemma slug_char_not_sep s : Str.forallb slug_char s = true → Str.mem "/" s = false.
Proof.
  induction s as [|c s IH]; [reflexivity |].
  simpl. intros [Hc Hs]%andb_prop.
  destruct (Ascii.eqb_spec c "/") as [-> |]; [discriminate Hc | auto].
Qed.

Lemma slug_ext_not_readme slug ext :
  Str.forallb slug_char slug = true →
  (ext = "" ∨ ∃ t, ext = String "." t) →
  slug +:+ ext ≠ "README.md".
Proof.
  intros Hslug Hext. destruct slug as [|c slug].
  - rewrite append_nil_l. destruct Hext as [-> | [t ->]]; discriminate.
  - rewrite append_cons. intros Heq. injection Heq as -> _. discriminate Hslug.
Qed.

Lemma download_path_spared slugify dir p :
  slug_ok slugify →
  os_path_basename
    (os_path_join dir (slugify (fst (os_path_splitext p)) +:+ snd (os_path_splitext p)))
  ≠ "README.md".
Proof.
  intros Hok.
  assert (Hc : Str.mem "/" (slugify (fst (os_path_splitext p)) +:+ snd (os_path_splitext p))
               = false).
  { rewrite mem_app, (slug_char_not_sep _ (Hok _)), splitext_ext_no_sep. reflexivity. }
  rewrite (join_relative dir _ (mem_startswith _ _ Hc)).
  rewrite basename_in_dir; [| apply join_empty_dir | exact Hc].
  apply slug_ext_not_readme; [apply Hok | apply splitext_ext_shape].
Qed.

Section Effects.

Variable slugify : string → string.
Variable json_loads : list byte → option (list Talk.t).
Variable E : Env.

Lemma emits_mkdir dir : emits (init_effect slugify) (_mkdir E dir).
Proof.
  unfold _mkdir, mkdir. apply emits_try_except.
  - destruct dir; [apply emits_perform_unit; now split | apply emits_raise].
  - intros []; auto with emits.
Qed.

Lemma emits_get url : emits (init_effect slugify) (get E url).
Proof.
  unfold get. destruct url; [apply emits_perform; now split | apply emits_raise].
Qed.

Lemma emits_download_step self destination_path result attachment :
  emits (init_effect slugify) (download_step slugify E self destination_path result attachment).
Proof.
  unfold download_step.
  destruct (FileDesc.name attachment) as [p|]; [| apply emits_bind_raise].
  cbn [splitext_py]. apply emits_bind_ret.
  pose proof (download_path_spared slugify) as Hpath.
  destruct (os_path_splitext p) as [cleaned_file_name file_extension] eqn:Hsplit.
  destruct (if truthy destination_path then destination_path else output_dir self)
    as [dir|]; [| apply emits_bind_raise].
  cbn [join_py]. apply emits_bind_ret.
  assert (Hev : ∀ ev,
             (∃ mode, ev = EvOpen (os_path_join dir (slugify cleaned_file_name +:+ file_extension)) mode
                      ∧ mode = "wb")
             ∨ (∃ chunk, ev = EvWrite (os_path_join dir (slugify cleaned_file_name +:+ file_extension)) chunk) →
             init_effect slugify ev).
  { intros ev Hev. split.
    - destruct Hev as [(mode & -> & ->) | (chunk & ->)]; reflexivity.
    - intros Hok. specialize (Hpath dir p Hok). rewrite Hsplit in Hpath. cbn [fst snd] in Hpath.
      destruct Hev as [(mode & -> & ->) | (chunk & ->)]; exact Hpath. }
  apply emits_bind; [apply emits_get | intros get_response].
  apply emits_bind; [apply emits_perform_unit, Hev; left; eauto | intros _].
  apply emits_bind; [| intros _; apply emits_ret].
  apply emits_for_each. intros _ [|b chunk]; [apply emits_ret |].
  apply emits_perform_unit, Hev. right. eauto.
Qed.

Lemma emits_get_talks_step self talks talk :
  emits (init_effect slugify) (get_talks_step slugify E self talks talk).
Proof.
  unfold get_talks_step. apply emits_bind; [| intros; apply emits_ret].
  destruct (default [] (Talk.files talk)) as [|a attachments]; [apply emits_ret |].
  destruct (Talk.name talk) as [name|]; [| apply emits_bind_raise].
  cbn [slugify_py]. apply emits_bind_ret.
  destruct (output_dir self) as [out|]; [| apply emits_bind_raise].
  cbn [join_py]. apply emits_bind_ret.
  apply emits_bind; [apply emits_mkdir | intros _].
  apply emits_bind; [| intros; apply emits_ret].
  apply emits_for_each. intros. apply emits_download_step.
Qed.

Lemma emits_get_talks self : emits (init_effect slugify) (_get_talks slugify json_loads E self).
Proof.
  unfold _get_talks.
  apply emits_bind; [apply emits_get | intros talks_response].
  apply emits_bind.
  { destruct (Response_bool talks_response); [| apply emits_ret].
    destruct (json_loads (content talks_response)); [apply emits_ret | apply emits_raise]. }
  intros self'. apply emits_bind.
  { destruct (json self'); [apply emits_ret | apply emits_raise]. }
  intros self_json. apply emits_bind; [| intros; apply emits_ret].
  apply emits_for_each. intros. apply emits_get_talks_step.
Qed.

Lemma emits_init kwargs : emits (init_effect slugify) (__init__ slugify json_loads E kwargs).
Proof.
  unfold __init__. apply emits_bind; [apply emits_mkdir | intros _; apply emits_get_talks].
Qed.

(** A run whose constructor returns goes on with the export, which first
    opens README.md. *)
Lemma export_after_init flag_o flag_t h self h1 :
  __init__ slugify json_loads E (main_options flag_o flag_t) h = (Ok self, h1) →
  main slugify json_loads E flag_o flag_t h = export_md E self "README.md" h1
  ∧ ∃ after, snd (main slugify json_loads E flag_o flag_t h)
             = after ++ EvOpen "README.md" "w" :: h1.
Proof.
  intros Hinit. unfold main. rewrite (bind_ok _ _ _ _ _ Hinit).
  split; [reflexivity |].
  unfold export_md, bind at 1, perform_unit.
  destruct (open_file E h1 "README.md" "w"); [now exists [] |].
  set (h2 := EvOpen "README.md" "w" :: h1).
  unfold bind at 1. destruct (as_md E self h2) as [[md|e] h3] eqn:Hmd.
  - unfold as_md, bind, _get_lighting_talks_content, try_except, bind, perform_unit,
      perform, now_strftime, ret in Hmd.
    destruct (open_file E h2 "lightning_talks.md" "r");
      [| destruct (file_read E _ "lightning_talks.md")];
      injection Hmd as _ <-; cbn [snd];
      match goal with
      | |- ∃ after, ?ev1 :: ?ev2 :: ?ev3 :: ?ev4 :: h2 = _ => exists [ev1; ev2; ev3; ev4]
      | |- ∃ after, ?ev1 :: ?ev2 :: ?ev3 :: h2 = _ => exists [ev1; ev2; ev3]
      end; reflexivity.
  - unfold as_md, bind, _get_lighting_talks_content, try_except, bind, perform_unit,
      perform, now_strftime, ret in Hmd.
    destruct (open_file E h2 "lightning_talks.md" "r");
      [| destruct (file_read E _ "lightning_talks.md")]; discriminate Hmd.
Qed.

End Effects.

Lemma sample_slug_go_ok started pending s :
  Str.forallb slug_char (Sample.slug_go started pending s) = true.
Proof.
  revert started pending. induction s as [|a s IH]; intros started pending; [reflexivity |].
  simpl. destruct (Sample.is_alnum (Sample.lower a)) eqn:Ha; [| apply IH].
  assert (Hc : slug_char (Sample.lower a) = true).
  { unfold slug_char. unfold Sample.is_alnum in Ha. now rewrite Ha. }
  destruct (started && pending); simpl; rewrite Hc; apply IH.
Qed.

Lemma sample_slug_ok : slug_ok Sample.slugify.
Proof. intros s. apply sample_slug_go_ok. Qed.

(** C9. When the constructor ends with an error, in the fetch or in a
    download, the run ends with that error and has done nothing more than
    the constructor: requests, directories and files written in binary mode.
    README.md has not been opened for writing and no text has been written
    to it: the export has not begun.  With a slug function that yields slugs,
    no file the run opened or wrote is called README.md. *)
Theorem no_export_after_failure (slugify : string → string)
    (json_loads : list byte → option (list Talk.t)) (E : Env)
    (flag_o flag_t : option string) (h : history) (e : exn) (h' : history) :
  __init__ slugify json_loads E (main_options flag_o flag_t) h = (Raise e, h') →
  main slugify json_loads E flag_o flag_t h = (Raise e, h')
  ∧ ∃ new,
      h' = new ++ h
      ∧ Forall init_event new
      ∧ ¬ In (EvOpen "README.md" "w") new
      ∧ (∀ md, ¬ In (EvWriteText "README.md" md) new)
      ∧ (slug_ok slugify → Forall (spares "README.md") new).
Proof.
  intros Hinit. split; [unfold main; now apply bind_raise |].
  destruct (emits_init slugify json_loads E (main_options flag_o flag_t) h)
    as (new & Hnew & Hall).
  rewrite Hinit in Hnew. cbn [snd] in Hnew.
  exists new. split; [exact Hnew |].
  assert (Hev : Forall init_event new) by (eapply Forall_impl; [exact Hall | now intros ev []]).
  split; [exact Hev |].
  rewrite Forall_forall in Hev.
  split; [| split].
  - intros Hin. apply list_elem_of_In in Hin. discriminate (Hev _ Hin).
  - intros md Hin. apply list_elem_of_In in Hin. exact (Hev _ Hin).
  - intros Hok. eapply Forall_impl; [exact Hall |]. intros ev [_ Hsp]. now apply Hsp.
Qed.

Lemma no_export_after_failure_witness :
  ∃ h',
    main Sample.slugify Sample.json_loads Sample.read_only None None []
    = (Raise (OtherError "PermissionError"), h')
    ∧ In (EvWrite "files/intro-pycon-es/my-slides-v2.PDF" Sample.body) h'
    ∧ ¬ In (EvOpen "README.md" "w") h'
    ∧ Forall (spares "README.md") h'.
Proof.
  assert (Hinit : ∃ h',
             __init__ Sample.slugify Sample.json_loads Sample.read_only (main_options None None) []
             = (Raise (OtherError "PermissionError"), h')
             ∧ In (EvWrite "files/intro-pycon-es/my-slides-v2.PDF" Sample.body) h').
  { eexists. split; [vm_compute; reflexivity |]. vm_compute. tauto. }
  destruct Hinit as (h' & Hinit & Hin).
  destruct (no_export_after_failure _ _ _ _ _ _ _ _ Hinit)
    as (Hmain & new & Hnew & _ & Hopen & _ & Hsp).
  rewrite app_nil_r in Hnew. subst new.
  exists h'. repeat split; [exact Hmain | exact Hin | exact Hopen | apply Hsp, sample_slug_ok].
Defined.

(** * Further properties of the program *)

(** ** Directories and settings *)

(** X1. [_mkdir] makes the directory with one call of [os.mkdir]; a
    directory that is there already is no error, any other failure of
    [os.mkdir] comes out as it is. *)
Theorem mkdir_existing_tolerated (E : Env) (dir : string) (h : history) :
  _mkdir E (Some dir) h
  = (match os_mkdir E h dir with
     | None => Ok tt
     | Some FileExistsError => Ok tt
     | Some e => Raise e
     end,
     EvMkdir dir :: h).
Proof.
  unfold _mkdir, mkdir, try_except, perform_unit.
  destruct (os_mkdir E h dir) as [[]|]; reflexivity.
Qed.

(** X2. A run starts by making the output directory, the one of the flag -o
    or files.  When that fails for another reason than the directory being
    there, the run ends with this error and nothing else is done: no request
    is sent. *)
Theorem output_dir_failure_aborts (slugify : string → string)
    (json_loads : list byte → option (list Talk.t)) (E : Env)
    (flag_o flag_t : option string) (h : history) (e : exn) :
  os_mkdir E h (default "files" flag_o) = Some e →
  e ≠ FileExistsError →
  main slugify json_loads E flag_o flag_t h
  = (Raise e, [EvMkdir (default "files" flag_o)] ++ h).
Proof.
  intros Hmk Hne. unfold main. apply bind_raise.
  unfold __init__. apply bind_raise.
  change (mkSchedTalks None [] (init_settings (environ E) (main_options flag_o flag_t)))
    with (configured (environ E) flag_o flag_t).
  rewrite configured_output_dir, mkdir_existing_tolerated, Hmk.
  destruct e; try reflexivity. contradiction.
Qed.

Lemma output_dir_failure_aborts_witness :
  main Sample.slugify Sample.json_loads Sample.no_disk (Some "out") None []
  = (Raise (OtherError "PermissionError"), [EvMkdir "out"]).
Proof.
  apply (output_dir_failure_aborts Sample.slugify Sample.json_loads Sample.no_disk
           (Some "out") None [] (OtherError "PermissionError"));
    [reflexivity | discriminate].
Defined.

Lemma main_options_empty_token flag_o :
  main_options flag_o (Some "") = main_options flag_o None.
Proof.
  unfold main_options, parse_args.
  assert (H1 : (({[ "output_dir" := Some (default "files" flag_o); "api_key" := Some "" ]}
                  : gmap string (option string)) !! "api_key") = Some (Some ""))
    by by simplify_map_eq.
  assert (H2 : (({[ "output_dir" := Some (default "files" flag_o); "api_key" := None ]}
                  : gmap string (option string)) !! "api_key") = Some None)
    by by simplify_map_eq.
  rewrite H1, H2. cbn [mjoin option_join truthy negb].
  apply map_eq. intros key.
  destruct (decide (key = "api_key")) as [-> | Hk].
  - by rewrite !lookup_delete_eq.
  - rewrite !lookup_delete_ne by done.
    destruct (decide (key = "output_dir")) as [-> | Ho]; by simplify_map_eq.
Qed.

(** X3. An empty token on the command line is no token: the run with the
    flag -t followed by the empty string is the run without the flag. *)
Theorem empty_token_is_no_token (slugify : string → string)
    (json_loads : list byte → option (list Talk.t)) (E : Env)
    (flag_o : option string) (h : history) :
  main slugify json_loads E flag_o (Some "") h = main slugify json_loads E flag_o None h.
Proof. unfold main. now rewrite main_options_empty_token. Qed.

Lemma init_settings_lookup environ kwargs key :
  init_settings environ kwargs !! key
  = match kwargs !! key with
    | Some v => Some v
    | None => default_settings environ !! key
    end.
Proof.
  unfold init_settings. fold (default_settings environ).
  destruct (kwargs !! key) as [v|] eqn:Hk.
  - now apply lookup_union_Some_l.
  - now apply lookup_union_r.
Qed.

(** X4. The settings are those of the construction for good: in the object
    a successful constructor returns, every key given as a keyword argument
    holds the given value, be it None, the two built-in keys hold their
    defaults when they are not given, and there is no other key. *)
Theorem settings_fixed_at_construction (slugify : string → string)
    (json_loads : list byte → option (list Talk.t)) (E : Env)
    (kwargs : gmap string (option string)) (h : history)
    (self : SchedTalks) (h' : history) :
  __init__ slugify json_loads E kwargs h = (Ok self, h') →
  (∀ key v, kwargs !! key = Some v → settings self !! key = Some v)
  ∧ (kwargs !! "output_dir" = None → output_dir self = Some "files")
  ∧ (kwargs !! "api_key" = None →
     api_key self = match environ E !! "SCHED_API_KEY" with
                    | Some v => Some v
                    | None => environ E !! "SCHED_KEY"
                    end)
  ∧ (∀ key, kwargs !! key = None → key ≠ "output_dir" → key ≠ "api_key" →
     settings self !! key = None).
Proof.
  intros Hinit. apply constructed_settings in Hinit.
  repeat split.
  - intros key v Hk. now rewrite Hinit, init_settings_lookup, Hk.
  - intros Hk. unfold output_dir, settings_get.
    rewrite Hinit, init_settings_lookup, Hk. unfold default_settings. by simplify_map_eq.
  - intros Hk. unfold api_key, settings_get.
    rewrite Hinit, init_settings_lookup, Hk. unfold default_settings. by simplify_map_eq.
  - intros key Hk Ho Ha. rewrite Hinit, init_settings_lookup, Hk.
    unfold default_settings. by simplify_map_eq.
Qed.

Lemma settings_fixed_at_construction_witness :
  ∃ self h',
    __init__ Sample.slugify Sample.json_loads Sample.online
      {[ "api_key" := None; "colour" := Some "red" ]} [] = (Ok self, h')
    ∧ api_key self = None
    ∧ output_dir self = Some "files"
    ∧ settings self !! "colour" = Some (Some "red").
Proof.
  assert (Hrun : ∃ self h',
             __init__ Sample.slugify Sample.json_loads Sample.online
               {[ "api_key" := None; "colour" := Some "red" ]} [] = (Ok self, h'))
    by (eexists _, _; vm_compute; reflexivity).
  destruct Hrun as (self & h' & Hrun).
  destruct (settings_fixed_at_construction _ _ _ _ _ _ _ Hrun) as (Hgiven & Hout & _ & _).
  exists self, h'. split; [exact Hrun |].
  split; [| split].
  - unfold api_key, settings_get. now rewrite (Hgiven "api_key" None eq_refl).
  - apply Hout. reflexivity.
  - apply Hgiven. reflexivity.
Defined.



(** ** Rendering and export *)





(** X8. A schedule in which no entry has a speaker renders as the header
    alone: no entry leaves a trace in the talks section. *)
Theorem only_breaks_render_header (talks : list Talk.t) :
  Forall (λ talk, has_speakers talk = false) talks →
  talks_section talks = HEADER.
Proof.
  intros Hall. unfold talks_section. rewrite fold_as_md_step.
  rewrite <- (append_nil_r HEADER) at 2. f_equal.
  induction Hall as [|talk talks Ht Hts IH]; [reflexivity |].
  cbn [map Str.concat]. now rewrite (as_md_step_skip _ _ Ht), IH.
Qed.

Lemma only_breaks_render_header_witness :
  talks_section [Sample.coffee; Sample.coffee] = HEADER.
Proof.
  apply (only_breaks_render_header [Sample.coffee; Sample.coffee]).
  repeat constructor.
Defined.

Lemma attachments_md_entries talk :
  attachments_md talk
  = match default [] (Talk.attachments talk) with
    | [] => ""
    | a :: l =>
        "  - :open_file_folder: Attachments" +:+ nl
        +:+ Str.concat
              (map (λ np : option string * string,
                      "    - :paperclip: [" +:+ fmt_str np.1 +:+ "](" +:+ np.2 +:+ ")" +:+ nl)
                 (map (λ a, (Attachment.file_name a, Attachment.file_path a)) (a :: l)))
    end.
Proof.
  unfold attachments_md, attachment_entries.
  destruct (Talk.attachments talk) as [[|a l]|]; try reflexivity.
  cbn [from_option id]. now rewrite map_map.
Qed.

(** X9. The document shows of an attachment its name and its local path
    only.  Two talks that agree on id, name, speakers, start and description,
    and on the names and local paths of their attachments, have the same
    block: neither the remote URLs nor the raw file descriptors reach the
    document. *)
Theorem document_ignores_urls (doc : string) (talk talk' : Talk.t) :
  Talk.id talk = Talk.id talk' →
  Talk.name talk = Talk.name talk' →
  Talk.speakers talk = Talk.speakers talk' →
  Talk.event_start talk = Talk.event_start talk' →
  Talk.description talk = Talk.description talk' →
  map (λ a, (Attachment.file_name a, Attachment.file_path a))
    (default [] (Talk.attachments talk))
  = map (λ a, (Attachment.file_name a, Attachment.file_path a))
      (default [] (Talk.attachments talk')) →
  as_md_step doc talk = as_md_step doc talk'.
Proof.
  intros Hid Hname Hsp Hstart Hdesc Hatt.
  assert (Hmd : attachments_md talk = attachments_md talk').
  { rewrite !attachments_md_entries.
    destruct (default [] (Talk.attachments talk)) as [|a l];
      destruct (default [] (Talk.attachments talk')) as [|a' l']; try discriminate Hatt.
    - reflexivity.
    - now rewrite Hatt. }
  unfold as_md_step, speaker_names, talk_md, description_md.
  now rewrite Hid, Hname, Hsp, Hstart, Hdesc, Hmd.
Qed.

Lemma document_ignores_urls_witness :
  as_md_step HEADER
    (Talk.mk (Some (SInt 7)) (Some "Workshop") (Some [Speaker.mk None]) None None
       (Some [FileDesc.mk (Some "https://cdn.example/3") (Some "a.pdf")])
       (Some [Attachment.mk (Some "https://cdn.example/3") "files/workshop/a.pdf" (Some "a.pdf")]))
  = as_md_step HEADER
      (Talk.mk (Some (SInt 7)) (Some "Workshop") (Some [Speaker.mk None]) None None
         None
         (Some [Attachment.mk None "files/workshop/a.pdf" (Some "a.pdf")])).
Proof.
  apply (document_ignores_urls HEADER); reflexivity.
Defined.

Lemma clean_breaks d : Str.forallb is_break d = true → clean_description d = "".
Proof.
  rewrite clean_description_filter.
  induction d as [|c d IH]; [reflexivity |].
  simpl. intros [Hc Hd]%andb_prop.
  unfold no_break. unfold is_break in Hc.
  destruct (Ascii.eqb c LF), (Ascii.eqb c CR); try discriminate Hc; now apply IH.
Qed.

(** X10. Whether a talk gets a description line is decided before the line
    breaks are taken out: without description, or with the empty one, there
    is no line, and a description made of line breaks only gives a line
    with nothing after the clipboard. *)
Theorem description_line_presence (talk : Talk.t) :
  (truthy (Talk.description talk) = false → description_md talk = "")
  ∧ (∀ d, Talk.description talk = Some d → d ≠ "" →
       Str.forallb is_break d = true →
       description_md talk = "  - :clipboard:  " +:+ nl).
Proof.
  split.
  - intros H. unfold description_md. now rewrite H.
  - intros d Hd Hne Hbreaks. unfold description_md. rewrite Hd.
    destruct d as [|c d]; [contradiction |].
    cbn [truthy from_option id]. now rewrite (clean_breaks _ Hbreaks).
Qed.

Lemma description_line_presence_witness :
  description_md Sample.workshop = ""
  ∧ description_md
      (Talk.mk None None None None (Some (String CR nl)) None None)
    = "  - :clipboard:  " +:+ nl.
Proof.
  split.
  - apply (description_line_presence Sample.workshop). reflexivity.
  - apply (description_line_presence
             (Talk.mk None None None None (Some (String CR nl)) None None) ) with (String CR nl);
      [reflexivity | discriminate | reflexivity].
Defined.

(** ** Downloads in detail *)

Lemma iter_content_go_spec n k cur l :
  (1 ≤ n)%nat → (length cur + k = n)%nat →
  List.concat (iter_content_go n k cur l) = rev cur ++ l
  ∧ Forall (λ c, c ≠ [] ∧ (length c ≤ n)%nat) (iter_content_go n k cur l).
Proof.
  intros Hn. revert k cur. induction l as [|b l IH]; intros k cur Hk.
  - destruct cur as [|c cur]; cbn [iter_content_go].
    + split; [reflexivity | constructor].
    + split; [cbn [List.concat]; now rewrite !app_nil_r |].
      constructor; [| constructor]. split.
      * intros H. apply (f_equal length) in H. rewrite length_rev in H. discriminate H.
      * rewrite length_rev. lia.
  - destruct k as [|k]; cbn [iter_content_go].
    + destruct (IH (Nat.pred n) [b]) as [Hc Hall]; [cbn [length]; lia |].
      split.
      * cbn [List.concat]. rewrite Hc. reflexivity.
      * constructor; [| exact Hall]. split.
        -- intros H. apply (f_equal length) in H. rewrite length_rev in H.
           cbn [length] in H. lia.
        -- rewrite length_rev. lia.
    + destruct (IH k (b :: cur)) as [Hc Hall]; [cbn [length]; lia |].
      split; [| exact Hall]. rewrite Hc. cbn [rev]. now rewrite <- app_assoc.
Qed.

Lemma iter_content_spec r :
  List.concat (iter_content r 1024) = content r
  ∧ Forall (λ c, c ≠ [] ∧ (length c ≤ 1024)%nat) (iter_content r 1024).
Proof. apply (iter_content_go_spec 1024 1024 []); [lia | reflexivity]. Qed.

Lemma trace_of_app {A} (f : event → option A) new h :
  trace_of f (new ++ h) = trace_of f h ++ trace_of f new.
Proof. unfold trace_of. now rewrite omap_app, rev_app_distr. Qed.

Lemma trace_of_cons_none {A} (f : event → option A) ev h :
  f ev = None → trace_of f (ev :: h) = trace_of f h.
Proof. intros H. unfold trace_of. simpl. now rewrite H. Qed.

Lemma trace_of_cons_some {A} (f : event → option A) ev x h :
  f ev = Some x → trace_of f (ev :: h) = trace_of f h ++ [x].
Proof. intros H. unfold trace_of. simpl. now rewrite H. Qed.

Lemma trace_of_writes {A} (f : event → option A) p chunks h :
  (∀ chunk, f (EvWrite p chunk) = None) →
  trace_of f (rev (map (EvWrite p) chunks) ++ h) = trace_of f h.
Proof.
  intros Hf. rewrite trace_of_app.
  assert (H : trace_of f (rev (map (EvWrite p) chunks)) = []).
  { unfold trace_of. rewrite <- (rev_involutive chunks) at 1.
    generalize (rev chunks). intros l. rewrite map_rev, rev_involutive.
    induction l as [|c l IH]; [reflexivity |].
    simpl. now rewrite Hf. }
  rewrite H. apply app_nil_r.
Qed.



Lemma for_each_trace {A B T} (f : event → option T) (g : A → list T)
    (body : B → A → M B) l acc h res h' :
  (∀ acc x h res h', body acc x h = (Ok res, h') → trace_of f h' = trace_of f h ++ g x) →
  for_each body l acc h = (Ok res, h') →
  trace_of f h' = trace_of f h ++ flat_map g l.
Proof.
  intros Hbody. revert acc h. induction l as [|x l IH]; intros acc h Hrun.
  - injection Hrun as _ <-. now rewrite app_nil_r.
  - cbn [for_each] in Hrun. apply bind_inv in Hrun as (acc1 & h1 & Hx & Hrun).
    rewrite (IH _ _ Hrun), (Hbody _ _ _ _ _ Hx). cbn [flat_map]. now rewrite app_assoc.
Qed.

Section DownloadRuns.

Variable slugify : string → string.
Variable E : Env.

Lemma write_chunks_history p chunks h h' :
  Forall (λ c : list byte, c ≠ []) chunks →
  for_each (λ (_ : unit) chunk,
      match chunk with
      | [] => ret tt
      | _ :: _ => perform_unit (EvWrite p chunk) (λ h, file_write E h p chunk)
      end) chunks tt h = (Ok tt, h') →
  h' = rev (map (EvWrite p) chunks) ++ h.
Proof.
  intros Hne. revert h. induction Hne as [|c chunks Hc Hne IH]; intros h Hrun.
  - now injection Hrun as <-.
  - cbn [for_each] in Hrun. apply bind_inv in Hrun as ([] & h1 & Hw & Hrun).
    destruct c as [|b c]; [contradiction |].
    unfold perform_unit in Hw. injection Hw as _ <-.
    rewrite (IH _ Hrun). cbn [map rev]. now rewrite <- app_assoc.
Qed.

Lemma download_step_history self destination_path dir result attachment h res h' :
  (if truthy destination_path then destination_path else output_dir self) = Some dir →
  download_step slugify E self destination_path result attachment h = (Ok res, h') →
  ∃ url r,
    FileDesc.path attachment = Some url
    ∧ requests_get E h url = Ok r
    ∧ h' = rev (map (EvWrite (Attachment.file_path (resolved slugify dir attachment)))
                  (iter_content r 1024))
           ++ [EvOpen (Attachment.file_path (resolved slugify dir attachment)) "wb";
               EvGet url] ++ h.
Proof.
  intros Hdir. unfold download_step, resolved.
  destruct (FileDesc.name attachment) as [file_name|]; [| discriminate].
  cbn [splitext_py from_option id]. unfold bind at 1. cbn [ret].
  destruct (os_path_splitext file_name) as [cleaned_file_name file_extension].
  rewrite Hdir. cbn [join_py]. unfold bind at 1. cbn [ret].
  destruct (FileDesc.path attachment) as [file_url|]; [| discriminate].
  intros Hrun.
  apply bind_inv in Hrun as (get_response & h1 & Hget & Hrun).
  apply bind_inv in Hrun as ([] & h2 & Hopen & Hrun).
  apply bind_inv in Hrun as ([] & h3 & Hwrite & Hrun).
  injection Hrun as _ <-.
  unfold get, perform in Hget. injection Hget as Hget <-.
  unfold perform_unit in Hopen. injection Hopen as _ <-.
  apply write_chunks_history in Hwrite.
  - exists file_url, get_response. cbn [Attachment.file_path]. auto.
  - eapply Forall_impl; [apply iter_content_spec |]. now intros c [].
Qed.

Lemma download_step_traces self destination_path dir result attachment h res h' :
  (if truthy destination_path then destination_path else output_dir self) = Some dir →
  download_step slugify E self destination_path result attachment h = (Ok res, h') →
  trace_of requested h' = trace_of requested h ++ [default "" (FileDesc.path attachment)]
  ∧ trace_of made_dir h' = trace_of made_dir h ++ []
  ∧ trace_of opened h'
    = trace_of opened h ++ [(Attachment.file_path (resolved slugify dir attachment), "wb")].
Proof.
  intros Hdir Hrun.
  destruct (download_step_history _ _ _ _ _ _ _ _ Hdir Hrun) as (url & r & Hp & _ & ->).
  rewrite Hp. cbn [from_option id app].
  rewrite !trace_of_writes by reflexivity.
  split; [| split].
  - rewrite (trace_of_cons_none _ (EvOpen _ _)) by reflexivity.
    now apply trace_of_cons_some.
  - rewrite !trace_of_cons_none by reflexivity. now rewrite app_nil_r.
  - rewrite (trace_of_cons_some opened (EvOpen _ _) _ _ eq_refl).
    now rewrite (trace_of_cons_none _ (EvGet _)) by reflexivity.
Qed.

Lemma flat_map_singleton {A B} (g : A → B) l : flat_map (λ x, [g x]) l = map g l.
Proof. induction l as [|x l IH]; [reflexivity |]. cbn [flat_map map app]. now rewrite IH. Qed.

Lemma flat_map_nil {A B} (l : list A) : flat_map (λ _, @nil B) l = [].
Proof. induction l as [|x l IH]; [reflexivity | exact IH]. Qed.

Lemma download_attachments_traces self destination_path dir attachments result h res h' :
  (if truthy destination_path then destination_path else output_dir self) = Some dir →
  for_each (download_step slugify E self destination_path) attachments result h = (Ok res, h') →
  trace_of requested h'
  = trace_of requested h ++ map (λ d, default "" (FileDesc.path d)) attachments
  ∧ trace_of made_dir h' = trace_of made_dir h
  ∧ trace_of opened h'
    = trace_of opened h
      ++ map (λ d, (Attachment.file_path (resolved slugify dir d), "wb")) attachments.
Proof.
  intros Hdir Hrun. split; [| split].
  - rewrite <- flat_map_singleton.
    apply (for_each_trace requested _ _ _ _ _ _ _) with (2 := Hrun).
    intros ????? Hs. now destruct (download_step_traces _ _ _ _ _ _ _ _ Hdir Hs).
  - rewrite <- (app_nil_r (trace_of made_dir h)), <- (flat_map_nil attachments).
    apply (for_each_trace made_dir _ _ _ _ _ _ _) with (2 := Hrun).
    intros ????? Hs. now destruct (download_step_traces _ _ _ _ _ _ _ _ Hdir Hs) as (_ & ? & _).
  - rewrite <- flat_map_singleton.
    apply (for_each_trace opened _ _ _ _ _ _ _) with (2 := Hrun).
    intros ????? Hs. now destruct (download_step_traces _ _ _ _ _ _ _ _ Hdir Hs) as (_ & _ & ?).
Qed.

(** What processing one talk yields and does. *)
Lemma get_talks_step_run self out talks talk h talks' h' :
  output_dir self = Some out →
  get_talks_step slugify E self talks talk h = (Ok talks', h') →
  let talk_dir := os_path_join out (slugify (default "" (Talk.name talk))) in
  talks' = talks ++ [processed slugify out talk]
  ∧ trace_of requested h'
    = trace_of requested h
      ++ map (λ d, default "" (FileDesc.path d)) (default [] (Talk.files talk))
  ∧ trace_of made_dir h'
    = trace_of made_dir h
      ++ match default [] (Talk.files talk) with [] => [] | _ :: _ => [talk_dir] end
  ∧ trace_of opened h'
    = trace_of opened h
      ++ map (λ d, (Attachment.file_path (resolved slugify talk_dir d), "wb"))
           (default [] (Talk.files talk)).
Proof.
  intros Hout Hrun talk_dir. unfold processed.
  destruct (default [] (Talk.files talk)) as [|a attachments] eqn:Hfiles.
  - rewrite get_talks_step_no_files in Hrun by assumption.
    injection Hrun as <- <-. cbn [map]. now rewrite !app_nil_r.
  - unfold get_talks_step in Hrun. rewrite Hfiles in Hrun.
    apply bind_inv in Hrun as (talk' & h1 & Hrun & Hret).
    injection Hret as <- <-.
    destruct (Talk.name talk) as [name|]; [| discriminate].
    cbn [slugify_py] in Hrun. unfold bind at 1 in Hrun. cbn [ret] in Hrun.
    rewrite Hout in Hrun.
    cbn [join_py] in Hrun. unfold bind at 1 in Hrun. cbn [ret] in Hrun.
    apply bind_inv in Hrun as ([] & h2 & Hmk & Hrun).
    apply bind_inv in Hrun as (res & h3 & Hdl & Hret).
    injection Hret as <- <-.
    rewrite mkdir_existing_tolerated in Hmk. injection Hmk as _ <-.
    unfold _download_attachments in Hdl.
    pose proof (effective_destination self out (slugify name) Hout) as Hdest.
    destruct (download_attachments_inv _ _ _ _ _ _ _ _ _ _ Hdest Hdl) as (_ & ->).
    subst talk_dir. cbn [from_option id app].
    split; [reflexivity |].
    destruct (download_attachments_traces _ _ _ _ _ _ _ _ Hdest Hdl) as (Hr & Hm & Ho).
    rewrite Hr, Hm, Ho.
    rewrite (trace_of_cons_none requested (EvMkdir _)) by reflexivity.
    rewrite (trace_of_cons_none opened (EvMkdir _)) by reflexivity.
    rewrite (trace_of_cons_some made_dir (EvMkdir _) _ _ eq_refl).
    auto.
Qed.


End DownloadRuns.

Section Construction.

Variable slugify : string → string.
Variable json_loads : list byte → option (list Talk.t).
Variable E : Env.

Lemma get_talks_loop_traces self out l talks h talks' h' :
  output_dir self = Some out →
  for_each (get_talks_step slugify E self) l talks h = (Ok talks', h') →
  trace_of requested h'
  = trace_of requested h
    ++ flat_map (λ talk, map (λ d, default "" (FileDesc.path d)) (default [] (Talk.files talk))) l
  ∧ trace_of made_dir h'
    = trace_of made_dir h
      ++ flat_map (λ talk,
           match default [] (Talk.files talk) with
           | [] => []
           | _ :: _ => [os_path_join out (slugify (default "" (Talk.name talk)))]
           end) l
  ∧ trace_of opened h'
    = trace_of opened h
      ++ flat_map (λ talk,
           map (λ d, (Attachment.file_path
                        (resolved slugify
                           (os_path_join out (slugify (default "" (Talk.name talk)))) d),
                      "wb"))
             (default [] (Talk.files talk))) l.
Proof.
  intros Hout Hrun. split; [| split].
  - apply (for_each_trace requested _ _ _ _ _ _ _) with (2 := Hrun).
    intros ????? Hs. now destruct (get_talks_step_run _ _ _ _ _ _ _ _ _ Hout Hs) as (_ & ? & _).
  - apply (for_each_trace made_dir _ _ _ _ _ _ _) with (2 := Hrun).
    intros ????? Hs.
    now destruct (get_talks_step_run _ _ _ _ _ _ _ _ _ Hout Hs) as (_ & _ & ? & _).
  - apply (for_each_trace opened _ _ _ _ _ _ _) with (2 := Hrun).
    intros ????? Hs.
    now destruct (get_talks_step_run _ _ _ _ _ _ _ _ _ Hout Hs) as (_ & _ & _ & ?).
Qed.

(** A constructor that returns has made the output directory, got a truthy
    response that parsed, and run the loop over the parsed talks. *)
Lemma init_success kwargs h self h' :
  __init__ slugify json_loads E kwargs h = (Ok self, h') →
  ∃ out r j,
    output_dir self = Some out
    ∧ requests_get E (EvMkdir out :: h) (schedule_url (api_key self)) = Ok r
    ∧ Response_bool r = true
    ∧ json_loads (content r) = Some j
    ∧ json self = Some j
    ∧ for_each (get_talks_step slugify E self) j []
        (EvGet (schedule_url (api_key self)) :: EvMkdir out :: h)
      = (Ok (talks self), h').
Proof.
  intros Hinit. pose proof (constructed_settings _ _ _ _ _ _ _ Hinit) as Hset.
  unfold __init__ in Hinit.
  apply bind_inv in Hinit as ([] & h1 & Hmk & Hrun).
  set (self0 := mkSchedTalks None [] (init_settings (environ E) kwargs)) in *.
  assert (Hout : output_dir self = output_dir self0)
    by (unfold output_dir, settings_get; now rewrite Hset).
  assert (Hkey : api_key self = api_key self0)
    by (unfold api_key, settings_get; now rewrite Hset).
  destruct (output_dir self0) as [out|] eqn:Hout0; [| discriminate Hmk].
  rewrite mkdir_existing_tolerated in Hmk. injection Hmk as _ <-.
  unfold _get_talks in Hrun.
  apply bind_inv in Hrun as (r & h2 & Hget & Hrun).
  unfold get, perform in Hget. injection Hget as Hget <-.
  apply bind_inv in Hrun as (self1 & h3 & Hself & Hrun).
  apply bind_inv in Hrun as (j & h4 & Hjson & Hrun).
  apply bind_inv in Hrun as (talks' & h5 & Hloop & Hrun).
  injection Hrun as <- <-.
  exists out, r, j. rewrite Hkey.
  destruct (Response_bool r).
  - destruct (json_loads (content r)) as [j'|]; [| discriminate Hself].
    injection Hself as <- <-. cbn [json] in Hjson. injection Hjson as <- <-.
    cbn [json talks]. repeat split; assumption.
  - injection Hself as <- <-. discriminate Hjson.
Qed.

End Construction.



(** X12. A constructor that returns has worked through the schedule in
    order, one thing after the other: it has requested the schedule and then
    the files, talk by talk and file by file; it has made the output
    directory and then one directory for each talk with files; and it has
    opened, in binary mode, the local file of each descriptor in turn. *)
Theorem effects_in_schedule_order (slugify : string → string)
    (json_loads : list byte → option (list Talk.t)) (E : Env)
    (kwargs : gmap string (option string)) (h : history)
    (self : SchedTalks) (h' : history) :
  __init__ slugify json_loads E kwargs h = (Ok self, h') →
  ∃ out j,
    output_dir self = Some out
    ∧ json self = Some j
    ∧ trace_of requested h'
      = trace_of requested h
        ++ schedule_url (api_key self)
           :: flat_map (λ talk, map (λ d, default "" (FileDesc.path d))
                                  (default [] (Talk.files talk))) j
    ∧ trace_of made_dir h'
      = trace_of made_dir h
        ++ out
           :: flat_map (λ talk,
                match default [] (Talk.files talk) with
                | [] => []
                | _ :: _ => [os_path_join out (slugify (default "" (Talk.name talk)))]
                end) j
    ∧ trace_of opened h'
      = trace_of opened h
        ++ flat_map (λ talk,
             map (λ d, (Attachment.file_path
                          (resolved slugify
                             (os_path_join out (slugify (default "" (Talk.name talk)))) d),
                        "wb"))
               (default [] (Talk.files talk))) j.
Proof.
  intros Hinit.
  destruct (init_success _ _ _ _ _ _ _ Hinit) as (out & r & j & Hout & _ & _ & _ & Hj & Hloop).
  exists out, j. split; [exact Hout |]. split; [exact Hj |].
  destruct (get_talks_loop_traces _ _ _ _ _ _ _ _ _ Hout Hloop) as (Hr & Hm & Ho).
  rewrite Hr, Hm, Ho.
  rewrite (trace_of_cons_some requested (EvGet _) _ _ eq_refl).
  rewrite (trace_of_cons_none requested (EvMkdir _)) by reflexivity.
  rewrite (trace_of_cons_none made_dir (EvGet _)) by reflexivity.
  rewrite (trace_of_cons_some made_dir (EvMkdir _) _ _ eq_refl).
  rewrite (trace_of_cons_none opened (EvGet _)), (trace_of_cons_none opened (EvMkdir _))
    by reflexivity.
  rewrite <- !app_assoc. auto.
Qed.

Lemma effects_in_schedule_order_witness :
  ∃ self h',
    __init__ Sample.slugify Sample.json_loads Sample.online (main_options None None) []
    = (Ok self, h')
    ∧ trace_of requested h'
      = [schedule_url (Some "k2"); "https://cdn.example/1"; "https://cdn.example/2"]
    ∧ trace_of made_dir h' = ["files"; "files/intro-pycon-es"]
    ∧ trace_of opened h'
      = [("files/intro-pycon-es/my-slides-v2.PDF", "wb"); ("files/intro-pycon-es/notes", "wb")].
Proof.
  assert (Hrun : ∃ self h',
             __init__ Sample.slugify Sample.json_loads Sample.online (main_options None None) []
             = (Ok self, h'))
    by (eexists _, _; vm_compute; reflexivity).
  destruct Hrun as (self & h' & Hrun).
  destruct (effects_in_schedule_order _ _ _ _ _ _ _ Hrun)
    as (out & j & Hout & Hj & Hr & Hm & Ho).
  exists self, h'. split; [exact Hrun |].
  pose proof (constructed_settings _ _ _ _ _ _ _ Hrun) as Hset.
  assert (Hout' : output_dir self = Some "files")
    by (unfold output_dir, settings_get; now rewrite Hset).
  assert (Hkey : api_key self = Some "k2")
    by (unfold api_key, settings_get; now rewrite Hset).
  rewrite Hout' in Hout. injection Hout as <-.
  destruct (init_success _ _ _ _ _ _ _ Hrun) as (out & r & j' & _ & Hget & _ & Hloads & Hj' & _).
  rewrite Hj in Hj'. injection Hj' as <-.
  vm_compute in Hget. injection Hget as <-.
  vm_compute in Hloads. injection Hloads as <-.
  rewrite Hr, Hm, Ho, Hkey. repeat split.
Defined.





(** X15. A file is opened only when its request has been answered.  When
    the request for an attachment raises, the download raises that error
    having done nothing but the request; when the local file cannot be
    opened, the download raises that error and nothing is written. *)
Theorem failed_download_writes_nothing (slugify : string → string) (E : Env)
    (self : SchedTalks) (destination_path : option string) (dir : string)
    (result : list Attachment.t) (attachment : FileDesc.t) (file_name url : string)
    (h : history) :
  (if truthy destination_path then destination_path else output_dir self) = Some dir →
  FileDesc.name attachment = Some file_name →
  FileDesc.path attachment = Some url →
  let file_path_local := Attachment.file_path (resolved slugify dir attachment) in
  (∀ e, requests_get E h url = Raise e →
     download_step slugify E self destination_path result attachment h
     = (Raise e, [EvGet url] ++ h))
  ∧ (∀ r e, requests_get E h url = Ok r →
       open_file E ([EvGet url] ++ h) file_path_local "wb" = Some e →
       download_step slugify E self destination_path result attachment h
       = (Raise e, [EvOpen file_path_local "wb"; EvGet url] ++ h)).
Proof.
  intros Hdir Hname Hurl file_path_local. subst file_path_local.
  unfold download_step, resolved. rewrite Hname, Hurl, Hdir.
  cbn [splitext_py join_py from_option id get].
  destruct (os_path_splitext file_name) as [cleaned_file_name file_extension].
  cbn [Attachment.file_path]. split.
  - intros e Hget. unfold bind, ret, perform. now rewrite Hget.
  - intros r e Hget Hopen. unfold bind, ret, perform, perform_unit.
    cbn [app] in Hopen. now rewrite Hget, Hopen.
Qed.

Lemma failed_download_writes_nothing_witness :
  download_step Sample.slugify Sample.flaky Sample.self (Some "files/x") []
    (FileDesc.mk (Some "https://cdn.example/2") (Some "b.pdf")) []
  = (Raise (OtherError "ConnectionError"), [EvGet "https://cdn.example/2"]).
Proof.
  apply (failed_download_writes_nothing Sample.slugify Sample.flaky Sample.self
           (Some "files/x") "files/x" []
           (FileDesc.mk (Some "https://cdn.example/2") (Some "b.pdf"))
           "b.pdf" "https://cdn.example/2" [] eq_refl eq_refl eq_refl).
  reflexivity.
Defined.

(** X16. Names that are missing are type errors that come before any effect.
    A talk with files and without a name is not processed: no directory is
    made and nothing is requested.  A descriptor without a name is not
    downloaded: nothing is requested for it.  A talk without files needs no
    name. *)
Theorem missing_name_is_type_error (slugify : string → string) (E : Env)
    (self : SchedTalks) :
  (∀ talks talk h,
     default [] (Talk.files talk) ≠ [] → Talk.name talk = None →
     get_talks_step slugify E self talks talk h = (Raise TypeError, h))
  ∧ (∀ destination_path result attachment h,
       FileDesc.name attachment = None →
       download_step slugify E self destination_path result attachment h
       = (Raise TypeError, h))
  ∧ (∀ talks talk h,
       default [] (Talk.files talk) = [] →
       get_talks_step slugify E self talks talk h = (Ok (talks ++ [talk]), h)).
Proof.
  split; [| split].
  - intros talks talk h Hfiles Hname. unfold get_talks_step.
    destruct (default [] (Talk.files talk)); [contradiction |].
    now rewrite Hname.
  - intros destination_path result attachment h Hname.
    unfold download_step. now rewrite Hname.
  - intros talks talk h Hfiles. now apply get_talks_step_no_files.
Qed.

Lemma missing_name_is_type_error_witness :
  get_talks_step Sample.slugify Sample.online Sample.self []
    (Talk.mk None None None None None
       (Some [FileDesc.mk (Some "https://cdn.example/1") (Some "a.pdf")]) None) []
  = (Raise TypeError, [])
  ∧ download_step Sample.slugify Sample.online Sample.self (Some "files/x") []
      (FileDesc.mk (Some "https://cdn.example/1") None) []
    = (Raise TypeError, []).
Proof.
  destruct (missing_name_is_type_error Sample.slugify Sample.online Sample.self)
    as (Htalk & Hfile & _).
  split; [apply Htalk; [discriminate | reflexivity] | apply Hfile; reflexivity].
Defined.

(** ** The whole run *)


